(** * The pre-push hook of git-lfs: [commands/command_pre_push.go]

    A shallow embedding of [decodeRefs] and [prePushCommand] together with
    the properties of the hook that the specification states.

    Go strings are byte sequences: they are modelled by [string], one
    [ascii] per byte.  The collaborators of the hook that live in other
    packages (the git scanner, the lock client, the upload queue, the
    configuration) are modelled as transitions on an abstract world. *)

From Stdlib Require Import ZArith NArith Ascii String.
From stdpp Require Import base list strings gmap.

Local Open Scope string_scope.
Local Open Scope list_scope.

(** ** Go's [strings] package, as far as the hook uses it *)

Module strings.

Definition byte (c : ascii) : N := N_of_ascii c.

(** [unicode.IsSpace] on the one-byte runes: tab, line feed, vertical tab,
    form feed, carriage return and space. *)
Definition space1 (c : ascii) : bool :=
  let b := byte c in ((9 <=? b) && (b <=? 13) || (b =? 32))%N.

(** UTF-8 encodings of the two-byte white space runes U+0085 and U+00A0. *)
Definition space2 (c0 c1 : ascii) : bool :=
  ((byte c0 =? 194) && ((byte c1 =? 133) || (byte c1 =? 160)))%N.

(** UTF-8 encodings of the three-byte white space runes: U+1680,
    U+2000..U+200A, U+2028, U+2029, U+202F, U+205F and U+3000. *)
Definition space3 (c0 c1 c2 : ascii) : bool :=
  let b0 := byte c0 in
  let b1 := byte c1 in
  let b2 := byte c2 in
  ((b0 =? 225) && (b1 =? 154) && (b2 =? 128)
   || (b0 =? 226) && (b1 =? 128)
        && ((128 <=? b2) && (b2 <=? 138) || (b2 =? 168) || (b2 =? 169) || (b2 =? 175))
   || (b0 =? 226) && (b1 =? 129) && (b2 =? 159)
   || (b0 =? 227) && (b1 =? 128) && (b2 =? 128))%N.

(** Strips, from the front of the bytes [s], every run that [s1], [s2] or
    [s3] recognises.  With [space1], [space2] and [space3] this is
    [TrimLeftFunc(s, unicode.IsSpace)]: the first rune of a string is a
    white space rune exactly when the string starts with the UTF-8
    encoding of one (an invalid or truncated sequence decodes to
    [RuneError], which is not white space). *)
Fixpoint strip (s1 : ascii -> bool) (s2 : ascii -> ascii -> bool)
    (s3 : ascii -> ascii -> ascii -> bool) (s : list ascii) : list ascii :=
  match s with
  | [] => s
  | c0 :: r0 =>
      if s1 c0 then strip s1 s2 s3 r0
      else match r0 with
           | [] => s
           | c1 :: r1 =>
               if s2 c0 c1 then strip s1 s2 s3 r1
               else match r1 with
                    | [] => s
                    | c2 :: r2 =>
                        if s3 c0 c1 c2 then strip s1 s2 s3 r2 else s
                    end
           end
  end.

(** Whether [s] starts with a run that [s1], [s2] or [s3] recognises. *)
Definition starts (s1 : ascii -> bool) (s2 : ascii -> ascii -> bool)
    (s3 : ascii -> ascii -> ascii -> bool) (s : list ascii) : bool :=
  match s with
  | c0 :: c1 :: c2 :: _ => s1 c0 || s2 c0 c1 || s3 c0 c1 c2
  | [c0; c1] => s1 c0 || s2 c0 c1
  | [c0] => s1 c0
  | [] => false
  end.

Definition trimLeft (s : list ascii) : list ascii := strip space1 space2 space3 s.

(** [TrimRightFunc(s, unicode.IsSpace)]: the last rune of a string is a
    white space rune exactly when the string ends with the encoding of
    one, so the right trim is the left trim of the reversed bytes with
    the encodings read backwards. *)
Definition trimRight (s : list ascii) : list ascii :=
  rev (strip space1 (fun c1 c0 => space2 c0 c1)
         (fun c2 c1 c0 => space3 c0 c1 c2) (rev s)).

(** [strings.TrimSpace]: white space is cut off at the front, then at the
    back. *)
Definition TrimSpace (s : string) : string :=
  string_of_list_ascii (trimRight (trimLeft (list_ascii_of_string s))).

(** [strings.Split(s, sep)] for a separator of one byte, which is how the
    hook calls it: the pieces of [s] between the occurrences of [sep];
    the empty string gives one empty piece. *)
Fixpoint Split (s : string) (sep : ascii) : list string :=
  match s with
  | EmptyString => [EmptyString]
  | String c r =>
      if Ascii.eqb c sep then EmptyString :: Split r sep
      else match Split r sep with
           | t :: ts => String c t :: ts
           | [] => [String c EmptyString]
           end
  end.

(** [strings.Repeat]. *)
Fixpoint Repeat (s : string) (count : nat) : string :=
  match count with
  | O => EmptyString
  | S n => s +:+ Repeat s n
  end.

End strings.

(** ** [decodeRefs] *)

(** [prePushDeleteBranch = strings.Repeat("0", 40)] *)
Definition prePushDeleteBranch : string := strings.Repeat "0" 40.

(** [decodeRefs] pulls the sha1s out of the line read from the pre-push
    hook's stdin. *)
Definition decodeRefs (input : string) : string * string :=
  let refs := strings.Split (strings.TrimSpace input) " "%char in
  let left := if (1 <? List.length refs)%nat then nth 1 refs "" else "" in
  let right := if (3 <? List.length refs)%nat then "^" +:+ nth 3 refs "" else "" in
  (left, right).

(** ** The types of the collaborating packages *)

Module locking.
  (** [locking.Lock]: the path of the locked file, and the name and email
      of the person holding the lock (the hook compares them with the
      current committer's). *)
Record Lock : Type := { Path : string; Name : string; Email : string }.
End locking.

Module lfs.
  (** [lfs.WrappedPointer]: a Git LFS object of the push; [Name] is the
      path of its file. *)
Record WrappedPointer : Type := { Name : string }.
End lfs.

(** An [error] value, by its message. *)
Definition error : Type := string.

(** [uploadContext], as far as the hook reads it. *)
Record uploadContext : Type := { Remote : string }.

(** ** Processes

    What a run does that can be observed: the lines it prints and the calls
    it makes to the upload pipeline. *)
Inductive event : Type :=
  | EvPrint (format : string) (args : list string)   (* Print: standard output *)
  | EvError (format : string) (args : list string)   (* Error: standard error *)
  | EvTrace (format : string) (args : list string)   (* tracerx.Printf *)
  | EvFatal (err : error)                            (* ExitWithError(err) *)
  | EvSearchLocks                                    (* lc.SearchLocks(map[string]string{}, 0, false) *)
  | EvUpload (left : string)                         (* uploadLeftOrAll(gitscanner, ctx, left) *)
  | EvAwait                                          (* ctx.Await() *)
  | EvCloseLocks                                     (* lc.Close() *)
  | EvCloseScanner.                                  (* gitscanner.Close() *)

(** A step either goes on with a value in a new world, or ends the process
    with an exit status. *)
Inductive result (W A : Type) : Type :=
  | Done (a : A) (w : W)
  | Exited (status : Z).
Arguments Done {W A} a w.
Arguments Exited {W A} status.

Definition proc (W A : Type) : Type := W -> list event * result W A.

Section Proc.
Context {W : Type}.

#[export] Instance proc_ret : MRet (proc W) :=
    fun A a w => ([], Done a w).

#[export] Instance proc_bind : MBind (proc W) :=
    fun A B k m w =>
      match m w with
      | (t, Done a w') => let '(t', r) := k a w' in (t ++ t', r)
      | (t, Exited s) => (t, Exited s)
      end.

Definition emit (e : event) : proc W unit := fun w => ([e], Done tt w).

  (** A call to a collaborator, which answers and changes the world. *)
Definition call {R : Type} (f : W -> R * W) : proc W R :=
    fun w => let '(r, w') := f w in ([], Done r w').

  (** Reading a variable of the world. *)
Definition get {R : Type} (f : W -> R) : proc W R :=
    fun w => ([], Done (f w) w).

  (** [os.Exit(status)]: deferred calls do not run. *)
Definition os_Exit {A : Type} (status : Z) : proc W A :=
    fun _ => ([], Exited status).

  (** A collaborator that may end the process itself. *)
Definition may_exit (f : W -> W + positive) : proc W unit :=
    fun w => match f w with
             | inl w' => ([], Done tt w')
             | inr s => ([], Exited (Z.pos s))
             end.

  (** [for _, x := range xs { body x }] *)
Fixpoint for_each {A : Type} (xs : list A) (body : A -> proc W unit) : proc W unit :=
    match xs with
    | [] => mret tt
    | x :: xs' => body x;; for_each xs' body
    end.
End Proc.

(** ** The collaborators

    The functions of the hook's own package and of the packages [git],
    [lfs] and [locking] that [prePushCommand] calls, as transitions on the
    world [W]. *)
Record Env (W : Type) : Type := {
  (** Modelled from the spec: [Exit] and [ExitWithError] of package
      [commands] report and terminate the process with a non-zero status
      (section 6, exit codes); [fatal] is that status. *)
  fatal : positive;
  (** [requireGitVersion()] returns or terminates the process. *)
  requireGitVersion : W -> W + positive;
  ValidateRemote : string -> W -> option error * W;
  newUploadContext : string -> bool -> W -> uploadContext * W;
  RemoteForPush : string -> W -> option error * W;
  gitscanner_Close : W -> W;
  CurrentCommitter : W -> string * string;
  (** [cfg.CurrentRemote] *)
  CurrentRemote : W -> string;
  NewClient : W -> option error * W;
  SearchLocks : W -> (list locking.Lock + error) * W;
  lc_Close : W -> W;
  (** The variable [pointers] that the read loop ranges over: it is not
      declared in [prePushCommand], so it is a variable of the package,
      read anew at every line. *)
  pointers : W -> list lfs.WrappedPointer;
  uploadLeftOrAll : uploadContext -> string -> W -> option error * W;
  (** Modelled from the spec: [ctx.Await()] is the drain barrier
      [awaitAll]; it blocks until the enqueued work has completed, and a
      failure during the drain surfaces as a non-zero exit of the hook
      (section 4.4).  [Await] has no result in the source, so it reports a
      failure by terminating the process. *)
  Await : uploadContext -> W -> W + positive
}.
Arguments fatal {W}.
Arguments requireGitVersion {W}.
Arguments ValidateRemote {W}.
Arguments newUploadContext {W}.
Arguments RemoteForPush {W}.
Arguments gitscanner_Close {W}.
Arguments CurrentCommitter {W}.
Arguments CurrentRemote {W}.
Arguments NewClient {W}.
Arguments SearchLocks {W}.
Arguments lc_Close {W}.
Arguments pointers {W}.
Arguments uploadLeftOrAll {W}.
Arguments Await {W}.

(** ** [prePushCommand] *)

Section Hook.
Context {W : Type} (env : Env W).

(** Modelled from the spec: [Exit(format, args...)] of package [commands]
    reports the message and terminates with a non-zero status. *)
Definition Exit {A : Type} (format : string) (args : list string) : proc W A :=
  emit (EvError format args);; os_Exit (Z.pos (fatal env)).

(** Modelled from the spec: [ExitWithError(err)] of package [commands]
    reports the error and terminates with a non-zero status. *)
Definition ExitWithError {A : Type} (err : error) : proc W A :=
  emit (EvFatal err);; os_Exit (Z.pos (fatal env)).

(** Lines 78-81: [lockSet[l.Name] = l] for every lock, in order. *)
Definition lockSet (locks : list locking.Lock) : gmap string locking.Lock :=
  foldl (fun m l => <[locking.Name l := l]> m) ∅ locks.

(** Lines 100-106: the body of the loop over [pointers]. *)
Definition checkLock (index : gmap string locking.Lock) (name email : string)
    (acc : list string * list string) (p : lfs.WrappedPointer)
    : list string * list string :=
  let '(lockConflicts, myLocks) := acc in
  match index !! lfs.Name p with
  | Some l =>
      if String.eqb (locking.Name l) name && String.eqb (locking.Email l) email
      then (lockConflicts, myLocks ++ [locking.Path l])
      else (lockConflicts ++ [lfs.Name p], myLocks)
  | None => acc
  end.

(** Lines 99-107: [for _, p := range pointers]. *)
Definition checkLocks (index : gmap string locking.Lock) (name email : string)
    (ps : list lfs.WrappedPointer) (lockConflicts myLocks : list string)
    : list string * list string :=
  foldl (checkLock index name email) (lockConflicts, myLocks) ps.

(** Lines 85-121: the read loop, over the lines that the scanner yields. *)
Fixpoint readLoop (ctx : uploadContext) (index : gmap string locking.Lock)
    (name email : string) (stdin : list string)
    (lockConflicts myLocks : list string) : proc W (list string * list string) :=
  match stdin with
  | [] => mret (lockConflicts, myLocks)
  | text :: rest =>
      let line := strings.TrimSpace text in
      if (String.length line =? 0)%nat then
        readLoop ctx index name email rest lockConflicts myLocks
      else
        emit (EvTrace "pre-push: %s" [line]);;
        let left := (decodeRefs line).1 in
        if String.eqb left prePushDeleteBranch then
          readLoop ctx index name email rest lockConflicts myLocks
        else
          ps ← get (pointers env);
          let '(lockConflicts, myLocks) :=
            checkLocks index name email ps lockConflicts myLocks in
          if (0 <? List.length lockConflicts)%nat then
            remote ← get (CurrentRemote env);
            emit (EvError "Some files are locked in %s...%s" [left; remote]);;
            for_each lockConflicts (fun file => emit (EvError "* %s" [file]));;
            os_Exit 1
          else
            emit (EvUpload left);;
            err ← call (uploadLeftOrAll env ctx left);
            match err with
            | Some e =>
                emit (EvPrint "Error scanning for Git LFS files in %q" [left]);;
                ExitWithError e
            | None => readLoop ctx index name email rest lockConflicts myLocks
            end
  end.

(** Lines 43-83: everything before the read loop. *)
Definition prologue (args : list string) (prePushDryRun : bool)
    : proc W (uploadContext * string * string * list locking.Lock) :=
  match args with
  | [] =>
      emit (EvPrint
        "This should be run through Git's pre-push hook.  Run `git lfs update` to install it."
        []);;
      os_Exit 1
  | remote :: _ =>
      may_exit (requireGitVersion env);;
      err ← call (ValidateRemote env remote);
      (if err is Some _ then Exit "Invalid remote name %q" [remote] else mret tt);;
      ctx ← call (newUploadContext env remote prePushDryRun);
      err ← call (RemoteForPush env (Remote ctx));
      (if err is Some e then ExitWithError e else mret tt);;
      '(name, email) ← get (CurrentCommitter env);
      err ← call (NewClient env);
      (if err is Some e then Exit "Unable to create lock system: %v" [e] else mret tt);;
      emit EvSearchLocks;;
      found ← call (SearchLocks env);
      match found with
      | inr e => Exit "error finding locks: %s" [e]
      | inl locks => mret (ctx, name, email, locks)
      end
  end.

(** Lines 123-131, and the two deferred calls, which run when the function
    returns: the last one deferred first. *)
Definition epilogue (ctx : uploadContext) (myLocks : list string) : proc W unit :=
  (if (0 <? List.length myLocks)%nat then
     emit (EvPrint "Pushing your locked files:" []);;
     for_each myLocks (fun file => emit (EvPrint "* %s" [file]))
   else mret tt);;
  emit EvAwait;;
  may_exit (Await env ctx);;
  emit EvCloseLocks;;
  call (fun w => (tt, lc_Close env w));;
  emit EvCloseScanner;;
  call (fun w => (tt, gitscanner_Close env w)).

(** [prePushCommand(cmd, args)], reading the lines [stdin]; [prePushDryRun]
    is the flag [--dry-run]. *)
Definition prePushCommand (args : list string) (prePushDryRun : bool)
    (stdin : list string) : proc W unit :=
  '(ctx, name, email, locks) ← prologue args prePushDryRun;
  '(_, myLocks) ← readLoop ctx (lockSet locks) name email stdin [] [];
  epilogue ctx myLocks.

End Hook.

(** ** Observations on a run *)

(** The exit status of the process: a command that returns ends it with
    status 0. *)
Definition status {W A : Type} (r : list event * result W A) : Z :=
  match r.2 with
  | Done _ _ => 0
  | Exited s => s
  end.

Definition trace {W A : Type} (r : list event * result W A) : list event := r.1.

(** Whether an event is a call to the upload pipeline: an enqueue or the
    drain barrier. *)
Definition isCall (e : event) : bool :=
  match e with
  | EvUpload _ | EvAwait => true
  | _ => false
  end.

(** The calls that a trace makes to the upload pipeline, in order. *)
Definition calls (t : list event) : list event := List.filter isCall t.

(** The revisions that an enqueue call hands to the dispatcher:
    [uploadLeftOrAll(gitscanner, ctx, left)] is given [left] alone. *)
Definition revisions (e : event) : list string :=
  match e with
  | EvUpload rev => [rev]
  | _ => []
  end.


(** A run that first shows [t]. *)
Definition prepend {W A : Type} (t : list event)
    (r : list event * result W A) : list event * result W A :=
  (t ++ r.1, r.2).

(** The local revision of a line that the read loop evaluates: a line that
    is not blank and is not the deletion of a branch. *)
Definition refUpdate (text : string) : option string :=
  let line := strings.TrimSpace text in
  if (String.length line =? 0)%nat then None
  else
    let left := (decodeRefs line).1 in
    if String.eqb left prePushDeleteBranch then None else Some left.

(** Whether the lock found for [p], if any, is held by someone else than
    the committer: lines 100, 101 and 103. *)
Definition conflicting (index : gmap string locking.Lock) (name email : string)
    (p : lfs.WrappedPointer) : bool :=
  match index !! lfs.Name p with
  | Some l =>
      negb (String.eqb (locking.Name l) name && String.eqb (locking.Email l) email)
  | None => false
  end.

(** The path of the lock found for [p], if the committer holds it. *)
Definition owned (index : gmap string locking.Lock) (name email : string)
    (p : lfs.WrappedPointer) : option string :=
  match index !! lfs.Name p with
  | Some l =>
      if String.eqb (locking.Name l) name && String.eqb (locking.Email l) email
      then Some (locking.Path l) else None
  | None => None
  end.

(** The report of a conflict: lines 110-113. *)
Definition conflictReport (left remote : string) (lockConflicts : list string)
    : list event :=
  EvError "Some files are locked in %s...%s" [left; remote]
  :: map (fun file => EvError "* %s" [file]) lockConflicts.

(** The report of the committer's own locks: lines 123-128. *)
Definition ownedReport (myLocks : list string) : list event :=
  match myLocks with
  | [] => []
  | _ :: _ =>
      EvPrint "Pushing your locked files:" []
      :: map (fun file => EvPrint "* %s" [file]) myLocks
  end.

(** What the read loop shows for a line before it decodes it: line 92. *)
Definition lineTrace (text : string) : list event :=
  let line := strings.TrimSpace text in
  if (String.length line =? 0)%nat then [] else [EvTrace "pre-push: %s" [line]].

(** Whether the read loop, started in the world [w], lets every line of
    [stdin] pass: on each line that it evaluates, no object of [pointers] is
    locked by someone else and the enqueue call reports no error. *)
Fixpoint passes {W : Type} (env : Env W) (ctx : uploadContext)
    (index : gmap string locking.Lock) (name email : string)
    (stdin : list string) (w : W) : bool :=
  match stdin with
  | [] => true
  | text :: rest =>
      match refUpdate text with
      | None => passes env ctx index name email rest w
      | Some rev =>
          match List.filter (conflicting index name email) (pointers env w),
                uploadLeftOrAll env ctx rev w with
          | [], (None, w') => passes env ctx index name email rest w'
          | _, _ => false
          end
      end
  end.

(** Whether the registry's list holds a lock on the path of [p] whose
    holder is not the committer: the object is locked by another user, in
    the words of the specification (sections 3 and 4.3), which looks a lock
    up by the path of the object. *)
Definition lockedByOther (locks : list locking.Lock) (name email : string)
    (p : lfs.WrappedPointer) : bool :=
  existsb
    (fun l =>
       String.eqb (locking.Path l) (lfs.Name p)
       && negb (String.eqb (locking.Name l) name && String.eqb (locking.Email l) email))
    locks.

(** Whether [ok] holds at every line of [stdin] that the read loop
    evaluates, in the world in which the loop evaluates it: the loop starts
    in [w], and an evaluated line leaves the world that its enqueue call
    leaves. *)
Fixpoint atEveryLine {W : Type} (env : Env W) (ctx : uploadContext)
    (ok : W -> string -> bool) (stdin : list string) (w : W) : bool :=
  match stdin with
  | [] => true
  | text :: rest =>
      match refUpdate text with
      | None => atEveryLine env ctx ok rest w
      | Some rev =>
          ok w rev && atEveryLine env ctx ok rest (uploadLeftOrAll env ctx rev w).2
      end
  end.

(** No object that the line touches is locked by another user. *)
Definition noneLockedByOther {W : Type} (env : Env W) (locks : list locking.Lock)
    (name email : string) (w : W) (rev : string) : bool :=
  forallb (fun p => negb (lockedByOther locks name email p)) (pointers env w).

(** For every object that the line touches, the lock index of lines 78-81
    gives the verdict of the registry's list: the index finds a lock of
    another user for the object exactly when the object is locked by
    another user. *)
Definition indexAgrees {W : Type} (env : Env W) (locks : list locking.Lock)
    (name email : string) (w : W) (rev : string) : bool :=
  forallb
    (fun p =>
       Bool.eqb (conflicting (lockSet locks) name email p)
         (lockedByOther locks name email p))
    (pointers env w).

(** The enqueue call for the line reports no error. *)
Definition enqueueSucceeds {W : Type} (env : Env W) (ctx : uploadContext)
    (w : W) (rev : string) : bool :=
  match (uploadLeftOrAll env ctx rev w).1 with
  | None => true
  | Some _ => false
  end.

(** ** A concrete world, to run the hook

    The world counts the enqueue calls made so far.  The lock registry
    answers [locks]; the package variable [pointers] holds [objects n]
    after [n] enqueue calls; the [n]-th enqueue call answers [scan n]; the
    drain succeeds when [drain] is [true].  Every other collaborator
    succeeds. *)
Module Demo.

Definition env (committer : string * string) (locks : list locking.Lock)
    (objects : nat -> list lfs.WrappedPointer) (scan : nat -> option error)
    (drain : bool) : Env nat :=
  {| fatal := 2%positive;
     requireGitVersion := fun w => inl w;
     ValidateRemote := fun _ w => (None, w);
     newUploadContext := fun remote _ w => ({| Remote := remote |}, w);
     RemoteForPush := fun _ w => (None, w);
     gitscanner_Close := fun w => w;
     CurrentCommitter := fun _ => committer;
     CurrentRemote := fun _ => "origin";
     NewClient := fun w => (None, w);
     SearchLocks := fun w => (inl locks, w);
     lc_Close := fun w => w;
     pointers := objects;
     uploadLeftOrAll := fun _ _ w => (scan w, S w);
     Await := fun _ w => if drain then inl w else inr 2%positive |}.

Definition bob : string * string := ("bob", "bob@example.com").

Definition alice_locks_big_psd : locking.Lock :=
  {| locking.Path := "big.psd"; locking.Name := "alice";
     locking.Email := "alice@example.com" |}.

Definition big_psd : lfs.WrappedPointer := {| lfs.Name := "big.psd" |}.

Definition args : list string := ["origin"; "https://example.com/repo.git"].

(** The hook run for remote [origin] on the lines [stdin]. *)
Definition run (e : Env nat) (stdin : list string) : list event * result nat unit :=
  prePushCommand e args false stdin 0%nat.

Definition mainLine : string := "refs/heads/main abc123 refs/heads/main def456".
Definition topicLine : string := "refs/heads/topic 111aaa refs/heads/topic 222bbb".
Definition deleteLine : string :=
  "refs/heads/topic 0000000000000000000000000000000000000000 refs/heads/topic def456".

(** No lock is registered and every collaborator succeeds. *)
Definition quiet : Env nat := env bob [] (fun _ => []) (fun _ => None) true.

(** No lock is registered; every enqueue call reports a scan error. *)
Definition scanFails : Env nat :=
  env bob [] (fun _ => []) (fun _ => Some "scan failed") true.

(** Alice holds a lock on [big.psd], which Bob's push touches. *)
Definition locked : Env nat :=
  env bob [alice_locks_big_psd] (fun _ => [big_psd]) (fun _ => None) true.

(** A lock held by Carol, and a pushed file whose path is [carol]: the file
    comes into [pointers] after the first enqueue call. *)
Definition carol_lock : locking.Lock :=
  {| locking.Path := "art/logo.psd"; locking.Name := "carol";
     locking.Email := "carol@example.com" |}.
Definition carol_file : lfs.WrappedPointer := {| lfs.Name := "carol" |}.
Definition clash : Env nat :=
  env bob [carol_lock]
    (fun n => match n with O => [] | S _ => [carol_file] end)
    (fun _ => None) true.

(** A lock held by Bob himself, a pushed file whose path is [bob], and a
    drain that fails. *)
Definition bob_lock : locking.Lock :=
  {| locking.Path := "notes/todo.txt"; locking.Name := "bob";
     locking.Email := "bob@example.com" |}.
Definition bob_file : lfs.WrappedPointer := {| lfs.Name := "bob" |}.
Definition mine : Env nat :=
  env bob [bob_lock] (fun _ => [bob_file]) (fun _ => None) false.

(** Alice holds a lock on [big.psd]; Bob's push touches [notes.txt] only. *)
Definition notes_txt : lfs.WrappedPointer := {| lfs.Name := "notes.txt" |}.
Definition elsewhere : Env nat :=
  env bob [alice_locks_big_psd] (fun _ => [notes_txt]) (fun _ => None) true.

End Demo.


(** ** Further notions, for the properties of the code *)

(** [strings.Join(elems, sep)], the inverse of [strings.Split]. *)
Fixpoint Join (elems : list string) (sep : string) : string :=
  match elems with
  | [] => ""
  | [a] => a
  | a :: rest => a +:+ sep +:+ Join rest sep
  end.

(** The bytes of a string. *)
Definition bytes (s : string) : list ascii := list_ascii_of_string s.

(** A string of printable ASCII bytes other than the space: 33 to 126. *)
Definition plain (s : string) : bool :=
  forallb (fun c => (33 <=? strings.byte c) && (strings.byte c <=? 126))%N (bytes s).

(** A line as Git hands it to the hook on stdin (lines 26-27):
    [<local ref> <local sha1> <remote ref> <remote sha1>]. *)
Definition hookLine (localRef localSha remoteRef remoteSha : string) : string :=
  localRef +:+ " " +:+ localSha +:+ " " +:+ remoteRef +:+ " " +:+ remoteSha.

(** A line that the read loop drops at line 88: nothing is left of it after
    trimming. *)
Definition blank (text : string) : bool :=
  (String.length (strings.TrimSpace text) =? 0)%nat.

(** The events of the lock client's and the scanner's life cycle. *)
Definition isLifecycle (e : event) : bool :=
  match e with
  | EvSearchLocks | EvCloseLocks | EvCloseScanner => true
  | _ => false
  end.

Definition lifecycle (t : list event) : list event := List.filter isLifecycle t.

(** Worlds in which a collaborator of the prologue fails: the remote is
    refused when [remoteError] is an error, and the lock registry answers
    [found]. *)
Module Faults.

Definition env (remoteError : option error) (found : list locking.Lock + error)
    : Env nat :=
  {| fatal := 2%positive;
     requireGitVersion := fun w => inl w;
     ValidateRemote := fun _ w => (remoteError, w);
     newUploadContext := fun remote _ w => ({| Remote := remote |}, w);
     RemoteForPush := fun _ w => (None, w);
     gitscanner_Close := fun w => w;
     CurrentCommitter := fun _ => Demo.bob;
     CurrentRemote := fun _ => "origin";
     NewClient := fun w => (None, w);
     SearchLocks := fun w => (found, w);
     lc_Close := fun w => w;
     pointers := fun _ => [];
     uploadLeftOrAll := fun _ _ w => (None, S w);
     Await := fun _ w => inl w |}.

Definition registryDown : Env nat := env None (inr "registry unreachable").
Definition badRemote : Env nat := env (Some "no such remote") (inl []).

End Faults.

(** * Properties *)

(** ** Trimming *)

Section Strip.
Variables (s1 : ascii -> bool) (s2 : ascii -> ascii -> bool)
  (s3 : ascii -> ascii -> ascii -> bool).

Local Abbreviation strip := (strings.strip s1 s2 s3).
Local Abbreviation starts := (strings.starts s1 s2 s3).

Lemma strip_spec (s : list ascii) :
  starts (strip s) = false /\ exists p, s = p ++ strip s.
Proof.
  remember (List.length s) as n eqn:Hn. revert s Hn.
  induction n as [n IH] using lt_wf_ind. intros s Hn.
  assert (Hrec : forall p r, s = p ++ r -> p <> [] ->
            starts (strip r) = false /\ exists q, s = q ++ strip r).
  { intros p r -> Hp.
    destruct (IH (List.length r)) with (s := r) as [Hs [q Hq]]; [|done|].
    - subst n. rewrite length_app. destruct p; [done | simpl; lia].
    - split; [done|]. exists (p ++ q). by rewrite <- app_assoc, <- Hq. }
  destruct s as [|c0 r0]; [split; [done | by exists []]|].
  simpl. destruct (s1 c0) eqn:E1.
  { by apply (Hrec [c0]). }
  destruct r0 as [|c1 r1].
  { split; [by simpl; rewrite E1 | by exists []]. }
  destruct (s2 c0 c1) eqn:E2.
  { by apply (Hrec [c0; c1]). }
  destruct r1 as [|c2 r2].
  { split; [by simpl; rewrite E1, E2 | by exists []]. }
  destruct (s3 c0 c1 c2) eqn:E3.
  { by apply (Hrec [c0; c1; c2]). }
  split; [by simpl; rewrite E1, E2, E3 | by exists []].
Qed.

Lemma strip_fixed (s : list ascii) : starts s = false -> strip s = s.
Proof.
  destruct s as [|c0 [|c1 [|c2 r]]]; simpl; try done.
  - by intros ->.
  - intros H. apply orb_false_elim in H as [-> ->]. done.
  - intros H. apply orb_false_elim in H as [H ->].
    apply orb_false_elim in H as [-> ->]. done.
Qed.

Lemma strip_idempotent (s : list ascii) : strip (strip s) = strip s.
Proof. apply strip_fixed, strip_spec. Qed.

Lemma starts_app (u q : list ascii) : starts u = true -> starts (u ++ q) = true.
Proof.
  destruct u as [|c0 [|c1 [|c2 r]]]; simpl; try done.
  - intros ->. by destruct q as [|? [|? ?]].
  - intros H. destruct q; [done|]. by rewrite H.
Qed.

Lemma starts_prefix (u q : list ascii) : starts (u ++ q) = false -> starts u = false.
Proof.
  intros H. destruct (starts u) eqn:E; [|done].
  apply (starts_app u q) in E. congruence.
Qed.
End Strip.

Lemma trimLeft_trimRight_fixed (s : list ascii) :
  strings.trimLeft (strings.trimRight (strings.trimLeft s))
  = strings.trimRight (strings.trimLeft s).
Proof.
  unfold strings.trimLeft at 1. apply strip_fixed.
  unfold strings.trimRight.
  set (t := strings.trimLeft s).
  destruct (strip_spec strings.space1 (fun c1 c0 => strings.space2 c0 c1)
              (fun c2 c1 c0 => strings.space3 c0 c1 c2) (rev t)) as [_ [p Hp]].
  apply (f_equal (@rev ascii)) in Hp. rewrite rev_involutive, rev_app_distr in Hp.
  apply starts_prefix with (q := rev p). rewrite <- Hp.
  apply strip_spec.
Qed.

Lemma trimRight_idempotent (s : list ascii) :
  strings.trimRight (strings.trimRight s) = strings.trimRight s.
Proof.
  unfold strings.trimRight. by rewrite rev_involutive, strip_idempotent.
Qed.

Lemma TrimSpace_idempotent (s : string) :
  strings.TrimSpace (strings.TrimSpace s) = strings.TrimSpace s.
Proof.
  unfold strings.TrimSpace.
  rewrite list_ascii_of_string_of_list_ascii.
  by rewrite trimLeft_trimRight_fixed, trimRight_idempotent.
Qed.


(** ** The process monad *)

Section ProcLemmas.
Context {W : Type}.

Lemma bind_run {A B : Type} (m : proc W A) (k : A -> proc W B) (w : W) :
  (m ≫= k) w =
  match m w with
  | (t, Done a w') => prepend t (k a w')
  | (t, Exited s) => (t, Exited s)
  end.
Proof.
  unfold mbind, proc_bind, prepend.
  destruct (m w) as [t [a w'|s]]; [|done]. by destruct (k a w').
Qed.

Lemma emit_run {B : Type} (e : event) (k : proc W B) (w : W) :
  (emit e;; k) w = prepend [e] (k w).
Proof. by rewrite bind_run. Qed.

Lemma get_run {R B : Type} (f : W -> R) (k : R -> proc W B) (w : W) :
  (get f ≫= k) w = k (f w) w.
Proof. rewrite bind_run. unfold get, prepend. simpl. by destruct (k (f w) w). Qed.

Lemma call_run {R B : Type} (f : W -> R * W) (k : R -> proc W B) (w : W) :
  (call f ≫= k) w = k (f w).1 (f w).2.
Proof.
  rewrite bind_run. unfold call, prepend. destruct (f w) as [r w']. simpl.
  by destruct (k r w').
Qed.

Lemma prepend_prepend {A : Type} (t t' : list event) (r : list event * result W A) :
  prepend t (prepend t' r) = prepend (t ++ t') r.
Proof. unfold prepend. simpl. by rewrite app_assoc. Qed.

Lemma prepend_nil {A : Type} (r : list event * result W A) : prepend [] r = r.
Proof. by destruct r. Qed.

Lemma for_each_emit {A : Type} (f : A -> event) (xs : list A) (w : W) :
  for_each xs (fun x => emit (f x)) w = (map f xs, Done tt w).
Proof.
  induction xs as [|x xs IH]; [done|].
  simpl. rewrite emit_run, IH. done.
Qed.
End ProcLemmas.


(** ** The read loop, line by line *)

Section Loop.
Context {W : Type} (env : Env W) (ctx : uploadContext)
  (index : gmap string locking.Lock) (name email : string).

Local Abbreviation readLoop := (readLoop env ctx index name email).

Lemma checkLocks_spec (ps : list lfs.WrappedPointer) (c m : list string) :
  checkLocks index name email ps c m =
  (c ++ map lfs.Name (List.filter (conflicting index name email) ps),
   m ++ omap (owned index name email) ps).
Proof.
  unfold checkLocks. revert c m.
  induction ps as [|p ps IH]; intros c m; simpl.
  { by rewrite !app_nil_r. }
  unfold conflicting, owned.
  destruct (index !! lfs.Name p) as [l|]; simpl; [|apply IH].
  destruct (String.eqb (locking.Name l) name && String.eqb (locking.Email l) email);
    simpl; rewrite IH; by rewrite <- app_assoc.
Qed.

Lemma readLoop_skip (text : string) (rest : list string) (c m : list string) (w : W) :
  refUpdate text = None ->
  readLoop (text :: rest) c m w = prepend (lineTrace text) (readLoop rest c m w).
Proof.
  unfold refUpdate, lineTrace. simpl.
  destruct (String.length (strings.TrimSpace text) =? 0)%nat.
  { intros _. by rewrite prepend_nil. }
  destruct (String.eqb _ prePushDeleteBranch); [|done].
  intros _. by rewrite emit_run.
Qed.

Lemma readLoop_eval (text : string) (rest : list string) (c m : list string) (w : W)
    (rev : string) :
  refUpdate text = Some rev ->
  readLoop (text :: rest) c m w =
  prepend (lineTrace text)
    (let '(c', m') := checkLocks index name email (pointers env w) c m in
     if (0 <? List.length c')%nat then
       (conflictReport rev (CurrentRemote env w) c', Exited 1)
     else
       prepend [EvUpload rev]
         match uploadLeftOrAll env ctx rev w with
         | (Some e, _) =>
             ([EvPrint "Error scanning for Git LFS files in %q" [rev]; EvFatal e],
              Exited (Z.pos (fatal env)))
         | (None, w') => readLoop rest c' m' w'
         end).
Proof.
  unfold refUpdate, lineTrace. simpl.
  destruct (String.length (strings.TrimSpace text) =? 0)%nat; [done|].
  destruct (String.eqb _ prePushDeleteBranch); [done|].
  intros [= <-]. rewrite emit_run. f_equal.
  rewrite get_run.
  destruct (checkLocks index name email (pointers env w) c m) as [c' m'].
  destruct (0 <? List.length c')%nat.
  - rewrite get_run, emit_run, bind_run, for_each_emit.
    unfold prepend, os_Exit, conflictReport. simpl. by rewrite app_nil_r.
  - rewrite emit_run. f_equal. rewrite call_run.
    destruct (uploadLeftOrAll env ctx _ w) as [[e|] w']; simpl; [|done].
    unfold ExitWithError. by rewrite emit_run, emit_run.
Qed.

Lemma readLoop_app (pre rest : list string) (c m : list string) (w : W) :
  readLoop (pre ++ rest) c m w =
  match readLoop pre c m w with
  | (t, Done (c', m') w') => prepend t (readLoop rest c' m' w')
  | (t, Exited s) => (t, Exited s)
  end.
Proof.
  revert c m w. induction pre as [|text pre IH]; intros c m w.
  { simpl. by rewrite prepend_nil. }
  rewrite <- app_comm_cons.
  destruct (refUpdate text) as [rev|] eqn:E.
  - rewrite !(readLoop_eval _ _ _ _ _ rev E).
    destruct (checkLocks index name email (pointers env w) c m) as [c' m'].
    destruct (0 <? List.length c')%nat; [done|].
    destruct (uploadLeftOrAll env ctx rev w) as [[e|] w']; [done|].
    rewrite IH. destruct (readLoop pre c' m' w') as [t [[c2 m2] w2|s]]; [|done].
    by rewrite !prepend_prepend.
  - rewrite !(readLoop_skip _ _ _ _ _ E), IH.
    destruct (readLoop pre c m w) as [t [[c2 m2] w2|s]]; [|done].
    by rewrite !prepend_prepend.
Qed.
End Loop.


(** ** The whole command *)

Lemma calls_app (t t' : list event) : calls (t ++ t') = calls t ++ calls t'.
Proof. apply List.filter_app. Qed.

Lemma calls_lineTrace (text : string) : calls (lineTrace text) = [].
Proof. unfold lineTrace. by destruct (_ =? _)%nat. Qed.

Lemma calls_ownedReport (m : list string) : calls (ownedReport m) = [].
Proof.
  destruct m as [|f m]; [done|]. unfold ownedReport.
  generalize (f :: m). intros l. simpl. by induction l.
Qed.

Lemma calls_conflictReport (rev remote : string) (c : list string) :
  calls (conflictReport rev remote c) = [].
Proof. unfold conflictReport. simpl. by induction c. Qed.

Ltac prologue_leaf :=
  unfold prepend; simpl; first [done | split; [done | lia]].

Section Command.
Context {W : Type} (env : Env W).

Lemma epilogue_run (ctx : uploadContext) (m : list string) (w : W) :
  epilogue env ctx m w =
  prepend (ownedReport m ++ [EvAwait])
    match Await env ctx w with
    | inl w' =>
        ([EvCloseLocks; EvCloseScanner],
         Done tt (gitscanner_Close env (lc_Close env w')))
    | inr s => ([], Exited (Z.pos s))
    end.
Proof.
  unfold epilogue. rewrite bind_run.
  assert (Hrep : (if (0 <? List.length m)%nat
                  then emit (EvPrint "Pushing your locked files:" []);;
                       for_each m (fun file => emit (EvPrint "* %s" [file]))
                  else mret tt) w = (ownedReport m, Done tt w)).
  { destruct m as [|f m]; [done|].
    change (0 <? List.length (f :: m))%nat with true. cbv iota.
    rewrite emit_run, for_each_emit. done. }
  rewrite Hrep, emit_run, prepend_prepend, bind_run. f_equal.
  unfold may_exit. destruct (Await env ctx w) as [w'|s]; [|done].
  rewrite emit_run, call_run, emit_run. done.
Qed.

Lemma prePushCommand_run (args : list string) (dry : bool) (stdin : list string)
    (w : W) (t0 : list event) (ctx : uploadContext) (name email : string)
    (locks : list locking.Lock) (w0 : W) :
  prologue env args dry w = (t0, Done (ctx, name, email, locks) w0) ->
  prePushCommand env args dry stdin w =
  prepend t0
    match readLoop env ctx (lockSet locks) name email stdin [] [] w0 with
    | (t1, Done (_, m) w1) => prepend t1 (epilogue env ctx m w1)
    | (t1, Exited s) => (t1, Exited s)
    end.
Proof.
  intros H. unfold prePushCommand. rewrite bind_run, H. f_equal.
  rewrite bind_run.
  by destruct (readLoop env ctx (lockSet locks) name email stdin [] [] w0)
    as [t1 [[c m] w1|s]].
Qed.

Lemma prePushCommand_exit (args : list string) (dry : bool) (stdin : list string)
    (w : W) (t0 : list event) (s : Z) :
  prologue env args dry w = (t0, Exited s) ->
  prePushCommand env args dry stdin w = (t0, Exited s).
Proof. intros H. unfold prePushCommand. by rewrite bind_run, H. Qed.

(** The prologue enqueues nothing, and it never ends the process with
    status 0. *)
Lemma prologue_spec (args : list string) (dry : bool) (w : W) :
  match prologue env args dry w with
  | (t, Done _ _) => calls t = []
  | (t, Exited s) => calls t = [] /\ (0 < s)%Z
  end.
Proof.
  unfold prologue. destruct args as [|remote args].
  { rewrite emit_run. prologue_leaf. }
  rewrite bind_run. unfold may_exit at 1.
  destruct (requireGitVersion env w) as [w1|s1]; [|prologue_leaf].
  rewrite prepend_nil, call_run.
  destruct (ValidateRemote env remote w1) as [[e|] w2]; cbn [fst snd]; rewrite bind_run.
  { unfold Exit at 1. rewrite emit_run. prologue_leaf. }
  unfold mret at 1, proc_ret at 1. rewrite prepend_nil, call_run.
  destruct (newUploadContext env remote dry w2) as [ctx w3]; cbn [fst snd].
  rewrite call_run.
  destruct (RemoteForPush env (Remote ctx) w3) as [[e|] w4]; cbn [fst snd];
    rewrite bind_run.
  { unfold ExitWithError at 1. rewrite emit_run. prologue_leaf. }
  unfold mret at 1, proc_ret at 1. rewrite prepend_nil, get_run.
  destruct (CurrentCommitter env w4) as [name email].
  rewrite call_run.
  destruct (NewClient env w4) as [[e|] w5]; cbn [fst snd]; rewrite bind_run.
  { unfold Exit at 1. rewrite emit_run. prologue_leaf. }
  unfold mret at 1, proc_ret at 1. rewrite prepend_nil, emit_run, call_run.
  destruct (SearchLocks env w5) as [[locks|e] w6]; cbn [fst snd].
  { prologue_leaf. }
  unfold Exit. rewrite emit_run. prologue_leaf.
Qed.

Section ReadLoop.
Context (ctx : uploadContext) (index : gmap string locking.Lock) (name email : string).

(** What a read loop that runs to its end has done; one that stops has
    stopped with a status that is not 0. *)
Lemma readLoop_spec (stdin : list string) (c m : list string) (w : W) :
  match readLoop env ctx index name email stdin c m w with
  | (t, Done (c', m') w') =>
      calls t = map EvUpload (omap refUpdate stdin) /\ c' = c
      /\ (c = [] -> passes env ctx index name email stdin w = true)
  | (t, Exited s) =>
      (0 < s)%Z /\ (c = [] -> passes env ctx index name email stdin w = false)
      /\ exists n, calls t = map EvUpload (take n (omap refUpdate stdin))
  end.
Proof.
  revert c m w. induction stdin as [|text rest IH]; intros c m w; [done|].
  simpl passes. simpl omap.
  destruct (refUpdate text) as [rev|] eqn:E.
  2:{ rewrite (readLoop_skip _ _ _ _ _ _ _ _ _ _ E).
      specialize (IH c m w).
      destruct (readLoop env ctx index name email rest c m w) as [t [[c' m'] w'|s]];
        unfold prepend; simpl; rewrite calls_app, calls_lineTrace; done. }
  rewrite (readLoop_eval _ _ _ _ _ _ _ _ _ _ _ E), checkLocks_spec.
  destruct (List.filter (conflicting index name email) (pointers env w)) as [|p ps] eqn:F.
  2:{ rewrite length_app. simpl map.
      replace (0 <? _)%nat with true by (symmetry; apply Nat.ltb_lt; simpl; lia).
      unfold prepend. cbn [fst snd].
      rewrite calls_app, calls_lineTrace, calls_conflictReport.
      split; [lia|]. split; [done|]. by exists 0%nat. }
  simpl map. rewrite app_nil_r.
  destruct c as [|f c].
  2:{ change (0 <? List.length (f :: c))%nat with true. unfold prepend. cbn [fst snd].
      rewrite calls_app, calls_lineTrace, calls_conflictReport.
      split; [lia|]. split; [done|]. by exists 0%nat. }
  change (0 <? List.length [])%nat with false. cbv iota.
  rewrite prepend_prepend.
  destruct (uploadLeftOrAll env ctx rev w) as [[e|] w'].
  { unfold prepend. simpl. rewrite !calls_app, calls_lineTrace. simpl.
    split; [lia|]. split; [done|]. by exists 1%nat. }
  specialize (IH [] (m ++ omap (owned index name email) (pointers env w)) w').
  destruct (readLoop env ctx index name email rest [] _ w') as [t [[c' m'] w2|s]];
    unfold prepend; simpl; rewrite !calls_app, calls_lineTrace; simpl.
  - destruct IH as (-> & -> & Ha). auto.
  - destruct IH as (Hs & Ha & n & ->). split; [done|]. split; [done|].
    by exists (S n).
Qed.
End ReadLoop.
End Command.


(** * The properties of the specification *)

(** ** The decoder *)

Lemma decodeRefs_TrimSpace (s : string) :
  decodeRefs (strings.TrimSpace s) = decodeRefs s.
Proof. unfold decodeRefs. by rewrite TrimSpace_idempotent. Qed.

Lemma String_length_0 (s : string) : (String.length s =? 0)%nat = true -> s = "".
Proof. by destruct s. Qed.

Example decodeRefs_main :
  decodeRefs "refs/heads/main abc123 refs/heads/main def456" = ("abc123", "^def456").
Proof. vm_compute. reflexivity. Qed.

Example decodeRefs_double_space :
  decodeRefs "  a  b c d " = ("", "^c").
Proof. vm_compute. reflexivity. Qed.

Example TrimSpace_tab_and_nbsp :
  strings.TrimSpace (String (ascii_of_nat 9) (String (ascii_of_nat 194)
                       (String (ascii_of_nat 160) "a b  "))) = "a b".
Proof. vm_compute. reflexivity. Qed.

Example Split_empty : strings.Split "" " " = [""].
Proof. reflexivity. Qed.

(** C9: for every input string, [decodeRefs] yields the same (local, remote)
    pair for the string and for the string with the surrounding white space
    stripped, because it trims its argument itself. *)
Theorem C9_decodeRefs_trim_invariant (s : string) :
  decodeRefs s = decodeRefs (strings.TrimSpace s).
Proof. unfold decodeRefs. by rewrite TrimSpace_idempotent. Qed.

(** C5: for a trimmed, non-empty line split at the spaces, the local
    revision is token 1 (it is empty when there is no token 1); with at
    least four tokens the remote revision is token 3 after the marker [^],
    with fewer it is empty; and equal lines decode to equal pairs. *)
Theorem C5_decodeRefs_tokens (line : string) :
  strings.TrimSpace line = line -> line <> "" ->
  let tokens := strings.Split line " " in
  (forall t, tokens !! 1%nat = Some t -> (decodeRefs line).1 = t)
  /\ (tokens !! 1%nat = None -> (decodeRefs line).1 = "")
  /\ (4 <= List.length tokens ->
      exists t, tokens !! 3%nat = Some t /\ (decodeRefs line).2 = "^" +:+ t)
  /\ (List.length tokens < 4 -> (decodeRefs line).2 = "")
  /\ (forall line', line' = line -> decodeRefs line' = decodeRefs line).
Proof.
  intros Htrim _ tokens. unfold decodeRefs. rewrite Htrim. fold tokens. simpl.
  repeat split.
  - intros t Ht. rewrite nth_lookup, Ht. simpl.
    apply lookup_lt_Some in Ht.
    by replace (1 <? List.length tokens)%nat with true
      by (symmetry; apply Nat.ltb_lt; lia).
  - intros Hn. rewrite nth_lookup, Hn. simpl. by destruct (_ <? _)%nat.
  - intros Hlen. destruct (lookup_lt_is_Some_2 tokens 3%nat) as [t Ht]; [lia|].
    exists t. split; [done|]. rewrite nth_lookup, Ht. simpl.
    by replace (3 <? List.length tokens)%nat with true
      by (symmetry; apply Nat.ltb_lt; lia).
  - intros Hlen.
    by replace (3 <? List.length tokens)%nat with false
      by (symmetry; apply Nat.ltb_ge; lia).
  - intros line' ->. by rewrite Htrim.
Qed.

Lemma C5_decodeRefs_tokens_witness :
  strings.TrimSpace Demo.mainLine = Demo.mainLine
  /\ Demo.mainLine <> ""
  /\ (decodeRefs Demo.mainLine).1 = "abc123"
  /\ (decodeRefs Demo.mainLine).2 = "^def456".
Proof.
  assert (Htrim : strings.TrimSpace Demo.mainLine = Demo.mainLine)
    by (vm_compute; reflexivity).
  assert (Hne : Demo.mainLine <> "") by discriminate.
  destruct (C5_decodeRefs_tokens Demo.mainLine Htrim Hne) as (H1 & _ & H3 & _).
  split; [exact Htrim|]. split; [exact Hne|]. split.
  - apply H1. vm_compute. reflexivity.
  - destruct H3 as (t & Ht & ->); [vm_compute; lia|].
    vm_compute in Ht. by injection Ht as <-.
Defined.


(** ** The controller *)

Lemma refUpdate_deletion (text : string) :
  (decodeRefs text).1 = prePushDeleteBranch ->
  refUpdate text = None
  /\ lineTrace text = [EvTrace "pre-push: %s" [strings.TrimSpace text]].
Proof.
  intros H. rewrite <- decodeRefs_TrimSpace in H.
  unfold refUpdate, lineTrace.
  destruct (String.length (strings.TrimSpace text) =? 0)%nat eqn:E.
  { apply String_length_0 in E. rewrite E in H. vm_compute in H. discriminate. }
  by rewrite H, String.eqb_refl.
Qed.

(** C6: a line whose decoded local revision is the deletion sentinel, forty
    zeros, is skipped whatever the lock index holds: the loop shows the
    line, evaluates no lock, enqueues nothing, and goes on with the next
    line in the same state. *)
Theorem C6_deletion_skipped {W : Type} (env : Env W) (ctx : uploadContext)
    (index : gmap string locking.Lock) (name email : string)
    (text : string) (rest : list string) (c m : list string) (w : W) :
  (decodeRefs text).1 = prePushDeleteBranch ->
  readLoop env ctx index name email (text :: rest) c m w =
  prepend [EvTrace "pre-push: %s" [strings.TrimSpace text]]
    (readLoop env ctx index name email rest c m w).
Proof.
  intros H. apply refUpdate_deletion in H as [Hr Ht].
  by rewrite (readLoop_skip _ _ _ _ _ _ _ _ _ _ Hr), Ht.
Qed.

Lemma C6_deletion_skipped_witness :
  (decodeRefs Demo.deleteLine).1 = prePushDeleteBranch
  /\ readLoop Demo.locked {| Remote := "origin" |} (lockSet [Demo.alice_locks_big_psd])
       "bob" "bob@example.com" [Demo.deleteLine] [] [] 0%nat =
     ([EvTrace "pre-push: %s" [Demo.deleteLine]], Done ([], []) 0%nat).
Proof.
  assert (H : (decodeRefs Demo.deleteLine).1 = prePushDeleteBranch)
    by (vm_compute; reflexivity).
  split; [exact H|].
  rewrite (C6_deletion_skipped Demo.locked {| Remote := "origin" |}
             (lockSet [Demo.alice_locks_big_psd]) "bob" "bob@example.com"
             Demo.deleteLine [] [] [] 0%nat H).
  vm_compute. reflexivity.
Defined.

(** C1: in every run, when the conflict set is not empty after the loop has
    evaluated a line, the hook shows the header with the remote and then
    every path of the conflict set, and the process ends there with status
    1: the lines after it are not read, and the only calls that the whole
    run makes to the upload pipeline are the enqueue calls of the lines
    before it; nothing is enqueued for the line or after it, and the drain
    barrier is not called. *)
Theorem C1_conflict_aborts {W : Type} (env : Env W) (args : list string)
    (dry : bool) (pre : list string) (text : string) (rest : list string) (w : W)
    (t0 : list event) (ctx : uploadContext) (name email : string)
    (locks : list locking.Lock) (w0 : W)
    (t1 : list event) (c m : list string) (w1 : W)
    (rev : string) (c' m' : list string) :
  prologue env args dry w = (t0, Done (ctx, name, email, locks) w0) ->
  readLoop env ctx (lockSet locks) name email pre [] [] w0 = (t1, Done (c, m) w1) ->
  refUpdate text = Some rev ->
  checkLocks (lockSet locks) name email (pointers env w1) c m = (c', m') ->
  c' <> [] ->
  prePushCommand env args dry (pre ++ text :: rest) w =
    (t0 ++ t1 ++ lineTrace text
        ++ EvError "Some files are locked in %s...%s" [rev; CurrentRemote env w1]
        :: map (fun file => EvError "* %s" [file]) c',
     Exited 1)
  /\ calls (trace (prePushCommand env args dry (pre ++ text :: rest) w))
     = map EvUpload (omap refUpdate pre).
Proof.
  intros Hpro Hpre Hrev Hchk Hne.
  pose proof (prologue_spec env args dry w) as Hp0. rewrite Hpro in Hp0.
  pose proof (readLoop_spec env ctx (lockSet locks) name email pre [] [] w0) as Hp1.
  rewrite Hpre in Hp1. destruct Hp1 as (Hcalls & -> & _).
  assert (Hrun : prePushCommand env args dry (pre ++ text :: rest) w =
            (t0 ++ t1 ++ lineTrace text ++ conflictReport rev (CurrentRemote env w1) c',
             Exited 1)).
  { rewrite (prePushCommand_run _ _ _ _ _ _ _ _ _ _ _ Hpro), readLoop_app, Hpre.
    rewrite (readLoop_eval _ _ _ _ _ _ _ _ _ _ _ Hrev), Hchk.
    destruct c' as [|f c']; [done|].
    change (0 <? List.length (f :: c'))%nat with true. cbv iota.
    unfold prepend. cbn [fst snd]. done. }
  split; [exact Hrun|].
  rewrite Hrun. unfold trace. cbn [fst].
  rewrite !calls_app, Hp0, Hcalls, calls_lineTrace, calls_conflictReport.
  by rewrite !app_nil_r.
Qed.

Lemma C1_conflict_aborts_witness :
  prologue Demo.clash Demo.args false 0%nat
    = ([EvSearchLocks], Done ({| Remote := "origin" |}, "bob", "bob@example.com",
                              [Demo.carol_lock]) 0%nat)
  /\ readLoop Demo.clash {| Remote := "origin" |} (lockSet [Demo.carol_lock])
       "bob" "bob@example.com" [Demo.mainLine] [] [] 0%nat
     = ([EvTrace "pre-push: %s" [Demo.mainLine]; EvUpload "abc123"],
        Done ([], []) 1%nat)
  /\ refUpdate Demo.topicLine = Some "111aaa"
  /\ checkLocks (lockSet [Demo.carol_lock]) "bob" "bob@example.com"
       (pointers Demo.clash 1%nat) [] [] = (["carol"], [])
  /\ ["carol"] <> []
  /\ Demo.run Demo.clash ([Demo.mainLine] ++ Demo.topicLine :: [Demo.mainLine])
     = ([EvSearchLocks; EvTrace "pre-push: %s" [Demo.mainLine]; EvUpload "abc123";
         EvTrace "pre-push: %s" [Demo.topicLine];
         EvError "Some files are locked in %s...%s" ["111aaa"; "origin"];
         EvError "* %s" ["carol"]],
        Exited 1).
Proof.
  assert (H1 : prologue Demo.clash Demo.args false 0%nat
    = ([EvSearchLocks], Done ({| Remote := "origin" |}, "bob", "bob@example.com",
                              [Demo.carol_lock]) 0%nat)) by (vm_compute; reflexivity).
  assert (H2 : readLoop Demo.clash {| Remote := "origin" |} (lockSet [Demo.carol_lock])
       "bob" "bob@example.com" [Demo.mainLine] [] [] 0%nat
     = ([EvTrace "pre-push: %s" [Demo.mainLine]; EvUpload "abc123"],
        Done ([], []) 1%nat)) by (vm_compute; reflexivity).
  assert (H3 : refUpdate Demo.topicLine = Some "111aaa") by (vm_compute; reflexivity).
  assert (H4 : checkLocks (lockSet [Demo.carol_lock]) "bob" "bob@example.com"
       (pointers Demo.clash 1%nat) [] [] = (["carol"], [])) by (vm_compute; reflexivity).
  assert (H5 : ["carol"] <> []) by discriminate.
  repeat (split; [assumption|]).
  apply (C1_conflict_aborts Demo.clash Demo.args false [Demo.mainLine] Demo.topicLine
           [Demo.mainLine] 0%nat _ _ _ _ _ _ _ _ _ _ _ _ _ H1 H2 H3 H4 H5).
Defined.


(** C8: when the first line is evaluated without conflict and dispatched,
    and the second line is evaluated with a conflict, the hook ends with
    status 1, not 0, and the report lists the conflicting objects of the
    second line's evaluation and nothing else. *)
Theorem C8_report_lists_second_line_only {W : Type} (env : Env W)
    (args : list string) (dry : bool) (text1 text2 : string) (rest : list string)
    (w : W) (t0 : list event) (ctx : uploadContext) (name email : string)
    (locks : list locking.Lock) (w0 w1 : W) (rev1 rev2 : string) :
  prologue env args dry w = (t0, Done (ctx, name, email, locks) w0) ->
  refUpdate text1 = Some rev1 ->
  List.filter (conflicting (lockSet locks) name email) (pointers env w0) = [] ->
  uploadLeftOrAll env ctx rev1 w0 = (None, w1) ->
  refUpdate text2 = Some rev2 ->
  List.filter (conflicting (lockSet locks) name email) (pointers env w1) <> [] ->
  let r := prePushCommand env args dry (text1 :: text2 :: rest) w in
  status r = 1%Z
  /\ trace r =
     t0 ++ lineTrace text1 ++ [EvUpload rev1] ++ lineTrace text2
        ++ EvError "Some files are locked in %s...%s" [rev2; CurrentRemote env w1]
        :: map (fun file => EvError "* %s" [file])
             (map lfs.Name
                (List.filter (conflicting (lockSet locks) name email) (pointers env w1))).
Proof.
  intros Hpro Hrev1 Hno Hup Hrev2 Hyes r. subst r.
  rewrite (prePushCommand_run _ _ _ _ _ _ _ _ _ _ _ Hpro).
  rewrite (readLoop_eval _ _ _ _ _ _ _ _ _ _ _ Hrev1), checkLocks_spec, Hno.
  change (0 <? List.length ([] ++ map lfs.Name []))%nat with false. cbv iota.
  rewrite Hup, (readLoop_eval _ _ _ _ _ _ _ _ _ _ _ Hrev2), checkLocks_spec.
  destruct (List.filter (conflicting (lockSet locks) name email) (pointers env w1))
    as [|p ps]; [done|].
  change (0 <? List.length ([] ++ map lfs.Name (p :: ps)))%nat with true. cbv iota.
  unfold status, trace, prepend, conflictReport. cbn [fst snd].
  split; [done|]. by rewrite <- !app_assoc.
Qed.

Lemma C8_report_lists_second_line_only_witness :
  prologue Demo.clash Demo.args false 0%nat
    = ([EvSearchLocks], Done ({| Remote := "origin" |}, "bob", "bob@example.com",
                              [Demo.carol_lock]) 0%nat)
  /\ refUpdate Demo.mainLine = Some "abc123"
  /\ List.filter (conflicting (lockSet [Demo.carol_lock]) "bob" "bob@example.com")
       (pointers Demo.clash 0%nat) = []
  /\ uploadLeftOrAll Demo.clash {| Remote := "origin" |} "abc123" 0%nat = (None, 1%nat)
  /\ refUpdate Demo.topicLine = Some "111aaa"
  /\ List.filter (conflicting (lockSet [Demo.carol_lock]) "bob" "bob@example.com")
       (pointers Demo.clash 1%nat) <> []
  /\ status (Demo.run Demo.clash [Demo.mainLine; Demo.topicLine]) = 1%Z.
Proof.
  assert (H1 : prologue Demo.clash Demo.args false 0%nat
    = ([EvSearchLocks], Done ({| Remote := "origin" |}, "bob", "bob@example.com",
                              [Demo.carol_lock]) 0%nat)) by (vm_compute; reflexivity).
  assert (H2 : refUpdate Demo.mainLine = Some "abc123") by (vm_compute; reflexivity).
  assert (H3 : List.filter (conflicting (lockSet [Demo.carol_lock]) "bob" "bob@example.com")
       (pointers Demo.clash 0%nat) = []) by (vm_compute; reflexivity).
  assert (H4 : uploadLeftOrAll Demo.clash {| Remote := "origin" |} "abc123" 0%nat
               = (None, 1%nat)) by (vm_compute; reflexivity).
  assert (H5 : refUpdate Demo.topicLine = Some "111aaa") by (vm_compute; reflexivity).
  assert (H6 : List.filter (conflicting (lockSet [Demo.carol_lock]) "bob" "bob@example.com")
       (pointers Demo.clash 1%nat) <> []) by (vm_compute; discriminate).
  repeat (split; [assumption|]).
  apply (C8_report_lists_second_line_only Demo.clash Demo.args false Demo.mainLine
           Demo.topicLine [] 0%nat _ _ _ _ _ _ _ _ _ H1 H2 H3 H4 H5 H6).
Defined.

(** C10: in every run whose read loop ends without a conflict, the report of
    the committer's own locks, the line "Pushing your locked files:" and
    one line for each owned path, is shown before the drain barrier is
    called: up to the end of the report the only calls to the upload
    pipeline are the enqueue calls.  So the report is shown also when the
    drain then fails. *)
Theorem C10_owned_report_before_drain {W : Type} (env : Env W)
    (args : list string) (dry : bool) (stdin : list string) (w : W)
    (t0 : list event) (ctx : uploadContext) (name email : string)
    (locks : list locking.Lock) (w0 : W)
    (t1 : list event) (c m : list string) (w1 : W) :
  prologue env args dry w = (t0, Done (ctx, name, email, locks) w0) ->
  readLoop env ctx (lockSet locks) name email stdin [] [] w0 = (t1, Done (c, m) w1) ->
  let r := prePushCommand env args dry stdin w in
  let report :=
    match m with
    | [] => []
    | _ :: _ =>
        EvPrint "Pushing your locked files:" []
        :: map (fun file => EvPrint "* %s" [file]) m
    end in
  (exists t2, trace r = (t0 ++ t1 ++ report) ++ EvAwait :: t2)
  /\ calls (t0 ++ t1 ++ report) = map EvUpload (omap refUpdate stdin)
  /\ (forall s, Await env ctx w1 = inr s ->
        trace r = (t0 ++ t1 ++ report) ++ [EvAwait] /\ status r = Z.pos s).
Proof.
  intros Hpro Hloop r report.
  assert (Hrun : r = prepend ((t0 ++ t1 ++ report) ++ [EvAwait])
            match Await env ctx w1 with
            | inl w' =>
                ([EvCloseLocks; EvCloseScanner],
                 Done tt (gitscanner_Close env (lc_Close env w')))
            | inr s => ([], Exited (Z.pos s))
            end).
  { subst r. rewrite (prePushCommand_run _ _ _ _ _ _ _ _ _ _ _ Hpro), Hloop.
    rewrite epilogue_run, !prepend_prepend. by rewrite <- !app_assoc. }
  split; [|split].
  - rewrite Hrun. destruct (Await env ctx w1) as [w2|s]; unfold trace, prepend; simpl.
    + exists [EvCloseLocks; EvCloseScanner]. by rewrite <- !app_assoc.
    + exists []. by rewrite app_nil_r.
  - pose proof (prologue_spec env args dry w) as Hp0. rewrite Hpro in Hp0.
    pose proof (readLoop_spec env ctx (lockSet locks) name email stdin [] [] w0) as Hp1.
    rewrite Hloop in Hp1. destruct Hp1 as (Hcalls & _).
    change report with (ownedReport m).
    by rewrite !calls_app, Hp0, Hcalls, calls_ownedReport, app_nil_r.
  - intros s Hs. rewrite Hrun, Hs. unfold trace, status, prepend. simpl.
    by rewrite app_nil_r.
Qed.

Lemma C10_owned_report_before_drain_witness :
  prologue Demo.mine Demo.args false 0%nat
    = ([EvSearchLocks], Done ({| Remote := "origin" |}, "bob", "bob@example.com",
                              [Demo.bob_lock]) 0%nat)
  /\ readLoop Demo.mine {| Remote := "origin" |} (lockSet [Demo.bob_lock])
       "bob" "bob@example.com" [Demo.mainLine] [] [] 0%nat
     = ([EvTrace "pre-push: %s" [Demo.mainLine]; EvUpload "abc123"],
        Done ([], ["notes/todo.txt"]) 1%nat)
  /\ exists t2, trace (Demo.run Demo.mine [Demo.mainLine]) =
       ([EvSearchLocks] ++ [EvTrace "pre-push: %s" [Demo.mainLine]; EvUpload "abc123"]
        ++ [EvPrint "Pushing your locked files:" []; EvPrint "* %s" ["notes/todo.txt"]])
       ++ EvAwait :: t2.
Proof.
  assert (H1 : prologue Demo.mine Demo.args false 0%nat
    = ([EvSearchLocks], Done ({| Remote := "origin" |}, "bob", "bob@example.com",
                              [Demo.bob_lock]) 0%nat)) by (vm_compute; reflexivity).
  assert (H2 : readLoop Demo.mine {| Remote := "origin" |} (lockSet [Demo.bob_lock])
       "bob" "bob@example.com" [Demo.mainLine] [] [] 0%nat
     = ([EvTrace "pre-push: %s" [Demo.mainLine]; EvUpload "abc123"],
        Done ([], ["notes/todo.txt"]) 1%nat)) by (vm_compute; reflexivity).
  repeat (split; [assumption|]).
  apply (C10_owned_report_before_drain Demo.mine Demo.args false [Demo.mainLine] 0%nat
           _ _ _ _ _ _ _ _ _ _ H1 H2).
Defined.


(** X21: in every run, the hook ends with status 0 only when the read loop
    has run to its end, every evaluated line has been enqueued once, and
    the drain barrier, called after that, has returned. *)
Lemma exit_zero_only_after_drain {W : Type} (env : Env W) (args : list string)
    (dry : bool) (stdin : list string) (w : W) :
  let r := prePushCommand env args dry stdin w in
  status r = 0%Z ->
  calls (trace r) = map EvUpload (omap refUpdate stdin) ++ [EvAwait]
  /\ exists t0 ctx name email locks w0 t1 m w1 w2,
       prologue env args dry w = (t0, Done (ctx, name, email, locks) w0)
       /\ readLoop env ctx (lockSet locks) name email stdin [] [] w0
          = (t1, Done ([], m) w1)
       /\ Await env ctx w1 = inl w2.
Proof.
  intros r. subst r.
  pose proof (prologue_spec env args dry w) as Hp0.
  destruct (prologue env args dry w) as [t0 [[[[ctx name] email] locks] w0|s]] eqn:Hpro.
  2:{ rewrite (prePushCommand_exit _ _ _ _ _ _ _ Hpro). unfold status. simpl. lia. }
  rewrite (prePushCommand_run _ _ _ _ _ _ _ _ _ _ _ Hpro).
  pose proof (readLoop_spec env ctx (lockSet locks) name email stdin [] [] w0) as Hp1.
  destruct (readLoop env ctx (lockSet locks) name email stdin [] [] w0)
    as [t1 [[c m] w1|s]] eqn:Hloop.
  2:{ unfold status, prepend. simpl. lia. }
  destruct Hp1 as (Hcalls & -> & _).
  rewrite epilogue_run, !prepend_prepend.
  destruct (Await env ctx w1) as [w2|s] eqn:Hawait;
    unfold status, trace, prepend; simpl; [|lia].
  intros _. split; [|by exists t0, ctx, name, email, locks, w0, t1, m, w1, w2].
  rewrite !calls_app, Hp0, Hcalls, calls_ownedReport. simpl. by rewrite app_nil_r.
Qed.

Lemma atEveryLine_passes {W : Type} (env : Env W) (ctx : uploadContext)
    (locks : list locking.Lock) (name email : string) (stdin : list string) (w : W) :
  atEveryLine env ctx (noneLockedByOther env locks name email) stdin w = true ->
  atEveryLine env ctx (indexAgrees env locks name email) stdin w = true ->
  atEveryLine env ctx (enqueueSucceeds env ctx) stdin w = true ->
  passes env ctx (lockSet locks) name email stdin w = true.
Proof.
  revert w. induction stdin as [|text rest IH]; intros w; [done|]. simpl.
  destruct (refUpdate text) as [rev|]; [|apply IH].
  intros H1 H2 H3.
  apply andb_prop in H1 as [H1 H1'].
  apply andb_prop in H2 as [H2 H2'].
  apply andb_prop in H3 as [H3 H3'].
  replace (List.filter (conflicting (lockSet locks) name email) (pointers env w))
    with (@nil lfs.WrappedPointer).
  - unfold enqueueSucceeds in H3.
    destruct (uploadLeftOrAll env ctx rev w) as [[e|] w']; [done|]. by apply IH.
  - symmetry. unfold noneLockedByOther in H1. unfold indexAgrees in H2.
    induction (pointers env w) as [|p ps IHps]; [done|]. simpl in *.
    apply andb_prop in H1 as [Hp H1]. apply andb_prop in H2 as [Hq H2].
    apply Bool.eqb_prop in Hq. rewrite Hq.
    apply negb_true_iff in Hp. rewrite Hp. by apply IHps.
Qed.

(** C3, as the code has it: when, at every line that the loop evaluates, no
    object that the line touches is locked by another user, the lock index
    gives for every such object the verdict of the registry's list, and the
    enqueue call reports no error, then the read loop runs to its end,
    every line that is neither blank nor a deletion is enqueued exactly
    once, in order, the drain barrier is called once after that, and the
    hook ends with status 0 exactly when the drain barrier returns. *)
Theorem C3_clean_run {W : Type} (env : Env W) (args : list string)
    (dry : bool) (stdin : list string) (w : W)
    (t0 : list event) (ctx : uploadContext) (name email : string)
    (locks : list locking.Lock) (w0 : W) :
  prologue env args dry w = (t0, Done (ctx, name, email, locks) w0) ->
  atEveryLine env ctx (noneLockedByOther env locks name email) stdin w0 = true ->
  atEveryLine env ctx (indexAgrees env locks name email) stdin w0 = true ->
  atEveryLine env ctx (enqueueSucceeds env ctx) stdin w0 = true ->
  let r := prePushCommand env args dry stdin w in
  exists t1 m w1,
    readLoop env ctx (lockSet locks) name email stdin [] [] w0 = (t1, Done ([], m) w1)
    /\ calls (trace r) = map EvUpload (omap refUpdate stdin) ++ [EvAwait]
    /\ (status r = 0%Z <-> exists w2, Await env ctx w1 = inl w2).
Proof.
  intros Hpro Hfree Hagree Hscan r. subst r.
  pose proof (atEveryLine_passes env ctx locks name email stdin w0 Hfree Hagree Hscan)
    as Hadm.
  pose proof (prologue_spec env args dry w) as Hp0. rewrite Hpro in Hp0.
  rewrite (prePushCommand_run _ _ _ _ _ _ _ _ _ _ _ Hpro).
  pose proof (readLoop_spec env ctx (lockSet locks) name email stdin [] [] w0) as Hp1.
  destruct (readLoop env ctx (lockSet locks) name email stdin [] [] w0)
    as [t1 [[c m] w1|s]].
  2:{ destruct Hp1 as (_ & Hno & _). rewrite Hno in Hadm; done. }
  destruct Hp1 as (Hcalls & -> & _).
  exists t1, m, w1. split; [done|].
  rewrite epilogue_run, !prepend_prepend.
  destruct (Await env ctx w1) as [w2|s]; unfold status, trace, prepend; simpl.
  - rewrite !calls_app, Hp0, Hcalls, calls_ownedReport. simpl.
    rewrite app_nil_r. split; [done|]. split; [by eauto | done].
  - rewrite app_nil_r, !calls_app, Hp0, Hcalls, calls_ownedReport. simpl.
    split; [done|]. split; [lia | by intros [? ?]].
Qed.

Lemma C3_clean_run_witness :
  prologue Demo.elsewhere Demo.args false 0%nat
    = ([EvSearchLocks],
       Done ({| Remote := "origin" |}, "bob", "bob@example.com",
             [Demo.alice_locks_big_psd]) 0%nat)
  /\ atEveryLine Demo.elsewhere {| Remote := "origin" |}
       (noneLockedByOther Demo.elsewhere [Demo.alice_locks_big_psd]
          "bob" "bob@example.com")
       [Demo.mainLine; ""; Demo.deleteLine; Demo.topicLine] 0%nat = true
  /\ atEveryLine Demo.elsewhere {| Remote := "origin" |}
       (indexAgrees Demo.elsewhere [Demo.alice_locks_big_psd] "bob" "bob@example.com")
       [Demo.mainLine; ""; Demo.deleteLine; Demo.topicLine] 0%nat = true
  /\ atEveryLine Demo.elsewhere {| Remote := "origin" |}
       (enqueueSucceeds Demo.elsewhere {| Remote := "origin" |})
       [Demo.mainLine; ""; Demo.deleteLine; Demo.topicLine] 0%nat = true
  /\ exists t1 m w1,
       readLoop Demo.elsewhere {| Remote := "origin" |}
         (lockSet [Demo.alice_locks_big_psd]) "bob" "bob@example.com"
         [Demo.mainLine; ""; Demo.deleteLine; Demo.topicLine] [] [] 0%nat
       = (t1, Done ([], m) w1)
       /\ calls (trace (Demo.run Demo.elsewhere
                   [Demo.mainLine; ""; Demo.deleteLine; Demo.topicLine]))
          = map EvUpload (omap refUpdate
                [Demo.mainLine; ""; Demo.deleteLine; Demo.topicLine]) ++ [EvAwait]
       /\ (status (Demo.run Demo.elsewhere
                    [Demo.mainLine; ""; Demo.deleteLine; Demo.topicLine]) = 0%Z
           <-> exists w2, Await Demo.elsewhere {| Remote := "origin" |} w1 = inl w2).
Proof.
  assert (H1 : prologue Demo.elsewhere Demo.args false 0%nat
    = ([EvSearchLocks],
       Done ({| Remote := "origin" |}, "bob", "bob@example.com",
             [Demo.alice_locks_big_psd]) 0%nat)) by (vm_compute; reflexivity).
  assert (H2 : atEveryLine Demo.elsewhere {| Remote := "origin" |}
       (noneLockedByOther Demo.elsewhere [Demo.alice_locks_big_psd]
          "bob" "bob@example.com")
       [Demo.mainLine; ""; Demo.deleteLine; Demo.topicLine] 0%nat = true)
    by (vm_compute; reflexivity).
  assert (H3 : atEveryLine Demo.elsewhere {| Remote := "origin" |}
       (indexAgrees Demo.elsewhere [Demo.alice_locks_big_psd] "bob" "bob@example.com")
       [Demo.mainLine; ""; Demo.deleteLine; Demo.topicLine] 0%nat = true)
    by (vm_compute; reflexivity).
  assert (H4 : atEveryLine Demo.elsewhere {| Remote := "origin" |}
       (enqueueSucceeds Demo.elsewhere {| Remote := "origin" |})
       [Demo.mainLine; ""; Demo.deleteLine; Demo.topicLine] 0%nat = true)
    by (vm_compute; reflexivity).
  repeat (split; [assumption|]).
  apply (C3_clean_run Demo.elsewhere Demo.args false
           [Demo.mainLine; ""; Demo.deleteLine; Demo.topicLine] 0%nat
           _ _ _ _ _ _ H1 H2 H3 H4).
Defined.

(** The run that C2 is about is none of the runs above: [big.psd], which
    the push touches, is locked by Alice, and the index does not agree with
    the registry's list on it. *)
Example locked_run_is_set_aside :
  atEveryLine Demo.locked {| Remote := "origin" |}
    (noneLockedByOther Demo.locked [Demo.alice_locks_big_psd] "bob" "bob@example.com")
    [Demo.mainLine] 0%nat = false
  /\ atEveryLine Demo.locked {| Remote := "origin" |}
       (indexAgrees Demo.locked [Demo.alice_locks_big_psd] "bob" "bob@example.com")
       [Demo.mainLine] 0%nat = false.
Proof. by vm_compute. Qed.

(** C3 as the specification states it fails: with no lock registered at all,
    an enqueue call that reports a scan error ends the hook, and the second
    of two ref updates is never enqueued. *)
Lemma C3_scan_error_counterexample :
  SearchLocks Demo.scanFails 0%nat = (inl [], 0%nat)
  /\ omap refUpdate [Demo.mainLine; Demo.topicLine] = ["abc123"; "111aaa"]
  /\ calls (trace (Demo.run Demo.scanFails [Demo.mainLine; Demo.topicLine]))
     = [EvUpload "abc123"]
  /\ status (Demo.run Demo.scanFails [Demo.mainLine; Demo.topicLine]) = 2%Z
  /\ atEveryLine Demo.scanFails {| Remote := "origin" |}
       (noneLockedByOther Demo.scanFails [] "bob" "bob@example.com")
       [Demo.mainLine; Demo.topicLine] 0%nat = true
  /\ atEveryLine Demo.scanFails {| Remote := "origin" |}
       (indexAgrees Demo.scanFails [] "bob" "bob@example.com")
       [Demo.mainLine; Demo.topicLine] 0%nat = true.
Proof. vm_compute. done. Qed.


Lemma revisions_calls (t : list event) :
  flat_map revisions t = flat_map revisions (calls t).
Proof.
  induction t as [|e t IH]; [done|].
  destruct e; simpl; by rewrite ?IH.
Qed.

Lemma checkLocks_no_locks (name email : string) (ps : list lfs.WrappedPointer)
    (c m : list string) :
  checkLocks (lockSet []) name email ps c m = (c, m).
Proof.
  rewrite checkLocks_spec.
  assert (H : forall p, (lockSet [] : gmap string locking.Lock) !! lfs.Name p = None)
    by (intros p; apply lookup_empty).
  induction ps as [|p ps IH]; simpl.
  { by rewrite !app_nil_r. }
  unfold conflicting at 1, owned at 1. by rewrite H.
Qed.

(** C4: the code at the failing input.  For the line
    [refs/heads/main abc123 refs/heads/main def456] with no lock registered,
    [decodeRefs] builds the remote revision [^def456], which the doc comment
    of [prePushCommand] names for the scan ([<local sha1> ^<remote sha1>]),
    but line 94 drops it: in every world the hook makes one enqueue call,
    which is given the local revision [abc123] and no other revision, then
    calls the drain barrier, and, the enqueue call reporting no error and
    the drain barrier returning, ends with status 0. *)
Theorem C4_single_enqueue_local_only {W : Type} (env : Env W)
    (args : list string) (dry : bool) (w : W) (t0 : list event)
    (ctx : uploadContext) (name email : string) (w0 w1 w2 : W) :
  prologue env args dry w = (t0, Done (ctx, name, email, []) w0) ->
  uploadLeftOrAll env ctx "abc123" w0 = (None, w1) ->
  Await env ctx w1 = inl w2 ->
  let line := "refs/heads/main abc123 refs/heads/main def456" in
  let r := prePushCommand env args dry [line] w in
  decodeRefs line = ("abc123", "^def456")
  /\ trace r =
     t0 ++ [EvTrace "pre-push: %s" [line]; EvUpload "abc123"; EvAwait;
            EvCloseLocks; EvCloseScanner]
  /\ calls (trace r) = [EvUpload "abc123"; EvAwait]
  /\ flat_map revisions (trace r) = ["abc123"]
  /\ status r = 0%Z.
Proof.
  intros Hpro Hup Hawait line r.
  assert (Hrev : refUpdate line = Some "abc123") by (vm_compute; reflexivity).
  assert (Hline : lineTrace line = [EvTrace "pre-push: %s" [line]])
    by (vm_compute; reflexivity).
  pose proof (prologue_spec env args dry w) as Hp0. rewrite Hpro in Hp0.
  assert (Hrun : r = (t0 ++ [EvTrace "pre-push: %s" [line]; EvUpload "abc123"; EvAwait;
                             EvCloseLocks; EvCloseScanner],
                      Done tt (gitscanner_Close env (lc_Close env w2)))).
  { subst r. rewrite (prePushCommand_run _ _ _ _ _ _ _ _ _ _ _ Hpro).
    rewrite (readLoop_eval _ _ _ _ _ _ _ _ _ _ _ Hrev), checkLocks_no_locks.
    change (0 <? List.length [])%nat with false. cbv iota.
    rewrite Hup, Hline.
    change (readLoop env ctx (lockSet []) name email [] [] [] w1)
      with (@nil event, Done (@nil string, @nil string) w1).
    unfold prepend at 2 3 4. cbn [fst snd app].
    rewrite epilogue_run, Hawait. unfold prepend. simpl. done. }
  split; [by vm_compute|].
  assert (Hcalls : calls (trace r) = [EvUpload "abc123"; EvAwait]).
  { rewrite Hrun. unfold trace. simpl. by rewrite calls_app, Hp0. }
  split; [by rewrite Hrun|]. split; [done|].
  split; [by rewrite revisions_calls, Hcalls | by rewrite Hrun].
Qed.

Lemma C4_single_enqueue_local_only_witness :
  prologue Demo.quiet Demo.args false 0%nat
    = ([EvSearchLocks], Done ({| Remote := "origin" |}, "bob", "bob@example.com", [])
         0%nat)
  /\ uploadLeftOrAll Demo.quiet {| Remote := "origin" |} "abc123" 0%nat = (None, 1%nat)
  /\ Await Demo.quiet {| Remote := "origin" |} 1%nat = inl 1%nat
  /\ flat_map revisions (trace (Demo.run Demo.quiet [Demo.mainLine])) = ["abc123"]
  /\ status (Demo.run Demo.quiet [Demo.mainLine]) = 0%Z.
Proof.
  assert (H1 : prologue Demo.quiet Demo.args false 0%nat
    = ([EvSearchLocks], Done ({| Remote := "origin" |}, "bob", "bob@example.com", [])
         0%nat)) by (vm_compute; reflexivity).
  assert (H2 : uploadLeftOrAll Demo.quiet {| Remote := "origin" |} "abc123" 0%nat
               = (None, 1%nat)) by (vm_compute; reflexivity).
  assert (H3 : Await Demo.quiet {| Remote := "origin" |} 1%nat = inl 1%nat)
    by (vm_compute; reflexivity).
  repeat (split; [assumption|]).
  destruct (C4_single_enqueue_local_only Demo.quiet Demo.args false 0%nat _ _ _ _ _ _ _
              H1 H2 H3) as (_ & _ & _ & Hrevs & Hst).
  split; [exact Hrevs | exact Hst].
Defined.

(** The same run in the world [Demo.quiet]: the decoder yields [^def456],
    but the one enqueue call of the run is given [abc123] alone, and no
    enqueue call of the run is given [^def456]. *)
Lemma C4_remote_exclusion_counterexample :
  decodeRefs Demo.mainLine = ("abc123", "^def456")
  /\ calls (trace (Demo.run Demo.quiet [Demo.mainLine])) = [EvUpload "abc123"; EvAwait]
  /\ ~ (exists e, In e (trace (Demo.run Demo.quiet [Demo.mainLine]))
                  /\ In "^def456" (revisions e)).
Proof.
  split; [by vm_compute|]. split; [by vm_compute|].
  intros (e & He & Hr). vm_compute in He.
  repeat (destruct He as [<-|He]; [simpl in Hr; try done; by destruct Hr|]).
  done.
Qed.

(** C7, as the code has it: a line that is not blank and has fewer than two
    tokens decodes to an empty local revision and an empty remote revision;
    the controller has no case for it: the line is evaluated like any other
    ref update and, when no conflict is found, it is enqueued once with the
    empty local revision; an error is raised for it only when that enqueue
    call reports one. *)
Theorem C7_short_line_is_enqueued {W : Type} (env : Env W) (ctx : uploadContext)
    (index : gmap string locking.Lock) (name email : string)
    (text : string) (rest : list string) (m : list string) (w : W) :
  strings.TrimSpace text <> "" ->
  List.length (strings.Split (strings.TrimSpace text) " ") < 2 ->
  decodeRefs text = ("", "")
  /\ refUpdate text = Some ""
  /\ (List.filter (conflicting index name email) (pointers env w) = [] ->
      readLoop env ctx index name email (text :: rest) [] m w =
      prepend [EvTrace "pre-push: %s" [strings.TrimSpace text]; EvUpload ""]
        match uploadLeftOrAll env ctx "" w with
        | (Some e, _) =>
            ([EvPrint "Error scanning for Git LFS files in %q" [""]; EvFatal e],
             Exited (Z.pos (fatal env)))
        | (None, w') =>
            readLoop env ctx index name email rest []
              (m ++ omap (owned index name email) (pointers env w)) w'
        end).
Proof.
  intros Hne Hlen.
  assert (Hdec : decodeRefs text = ("", "")).
  { unfold decodeRefs.
    replace (1 <? _)%nat with false by (symmetry; apply Nat.ltb_ge; lia).
    by replace (3 <? _)%nat with false by (symmetry; apply Nat.ltb_ge; lia). }
  assert (Hblank : (String.length (strings.TrimSpace text) =? 0)%nat = false).
  { destruct (_ =? _)%nat eqn:E; [|done]. by apply String_length_0 in E. }
  assert (Hrev : refUpdate text = Some "").
  { unfold refUpdate. by rewrite Hblank, decodeRefs_TrimSpace, Hdec. }
  split; [done|]. split; [done|]. intros Hno.
  rewrite (readLoop_eval _ _ _ _ _ _ _ _ _ _ _ Hrev), checkLocks_spec, Hno.
  change (0 <? List.length ([] ++ map lfs.Name []))%nat with false. cbv iota.
  rewrite prepend_prepend. unfold lineTrace. by rewrite Hblank.
Qed.

Lemma C7_short_line_is_enqueued_witness :
  strings.TrimSpace "garbage" <> ""
  /\ List.length (strings.Split (strings.TrimSpace "garbage") " ") < 2
  /\ decodeRefs "garbage" = ("", "")
  /\ refUpdate "garbage" = Some "".
Proof.
  assert (H1 : strings.TrimSpace "garbage" <> "") by (vm_compute; discriminate).
  assert (H2 : List.length (strings.Split (strings.TrimSpace "garbage") " ") < 2)
    by (vm_compute; lia).
  repeat (split; [assumption|]).
  destruct (C7_short_line_is_enqueued Demo.quiet {| Remote := "origin" |} (lockSet [])
              "bob" "bob@example.com" "garbage" [] [] 0%nat H1 H2) as (Hd & Hr & _).
  split; [exact Hd | exact Hr].
Defined.

(** C7 as the specification states it fails: the one-token line [garbage],
    with no lock registered, is enqueued with the empty local revision. *)
Lemma C7_short_line_counterexample :
  List.length (strings.Split (strings.TrimSpace "garbage") " ") = 1%nat
  /\ decodeRefs "garbage" = ("", "")
  /\ calls (trace (Demo.run Demo.quiet ["garbage"])) = [EvUpload ""; EvAwait].
Proof. by vm_compute. Qed.

(** ** The lock index *)

Lemma lockSet_snoc (locks : list locking.Lock) (l : locking.Lock) :
  lockSet (locks ++ [l]) = <[locking.Name l := l]> (lockSet locks).
Proof. unfold lockSet. by rewrite foldl_app. Qed.

(** Every entry of the index sits under the name of the person who holds
    the lock, not under the path of the locked file. *)
Lemma lockSet_key (locks : list locking.Lock) (k : string) (l : locking.Lock) :
  lockSet locks !! k = Some l -> locking.Name l = k /\ In l locks.
Proof.
  induction locks as [|l' locks IH] using rev_ind.
  { unfold lockSet. simpl. by rewrite lookup_empty. }
  rewrite lockSet_snoc, lookup_insert. case_decide as Hk.
  - intros [= <-]. split; [done|]. apply in_or_app. right. by left.
  - intros H. destruct (IH H) as [H1 H2]. split; [done|].
    apply in_or_app. by left.
Qed.

(** C2: the code at the failing input.  Alice holds the lock on [big.psd]
    and Bob pushes [big.psd]: the index has no entry for the path
    [big.psd], only one for the name [alice], so the evaluation finds
    neither a conflict nor an owned lock, the ref update is enqueued and the
    hook ends with status 0. *)
Theorem C2_lock_index_keyed_by_owner_name :
  lockSet [Demo.alice_locks_big_psd] !! "big.psd" = None
  /\ lockSet [Demo.alice_locks_big_psd] !! "alice" = Some Demo.alice_locks_big_psd
  /\ checkLocks (lockSet [Demo.alice_locks_big_psd]) "bob" "bob@example.com"
       [Demo.big_psd] [] [] = ([], [])
  /\ calls (trace (Demo.run Demo.locked [Demo.mainLine])) = [EvUpload "abc123"; EvAwait]
  /\ status (Demo.run Demo.locked [Demo.mainLine]) = 0%Z.
Proof. by vm_compute. Qed.

(** * Further properties of the code *)

(** ** [strings.Split] and [strings.TrimSpace] as [decodeRefs] uses them *)

Lemma bytes_append (a b : string) : bytes (a +:+ b) = bytes a ++ bytes b.
Proof. unfold bytes. induction a as [|c a IH]; [done|]. simpl. by rewrite IH. Qed.

Lemma Split_nonempty (s : string) (sep : ascii) :
  exists t ts, strings.Split s sep = t :: ts.
Proof.
  destruct s as [|c r]; simpl; [by eauto|].
  destruct (Ascii.eqb c sep); [by eauto|].
  destruct (strings.Split r sep); by eauto.
Qed.

Lemma Split_no_sep (s : string) (sep : ascii) (t : string) :
  In t (strings.Split s sep) -> ~ In sep (bytes t).
Proof.
  revert t. induction s as [|c r IH]; intros t; simpl.
  { intros [<-|[]]. by intros []. }
  destruct (Ascii.eqb_spec c sep) as [->|Hne].
  { intros [<-|H]; [by intros [] | by apply IH]. }
  destruct (strings.Split r sep) as [|t0 ts] eqn:E.
  { intros [<-|[]]. simpl. intros [H|[]]. done. }
  intros [<-|H].
  - simpl. intros [H|H]; [done|]. by apply (IH t0); [left|].
  - apply IH. by right.
Qed.

Lemma Join_Split (s : string) (sep : ascii) :
  Join (strings.Split s sep) (String sep "") = s.
Proof.
  induction s as [|c r IH]; [done|]. simpl.
  destruct (Split_nonempty r sep) as (t & ts & E). rewrite E in *.
  destruct (Ascii.eqb_spec c sep) as [->|Hne].
  - change (Join ("" :: t :: ts) (String sep ""))
      with ("" +:+ String sep "" +:+ Join (t :: ts) (String sep "")).
    by rewrite IH.
  - destruct ts as [|t' ts].
    + simpl in *. by rewrite IH.
    + change (Join (String c t :: t' :: ts) (String sep ""))
        with (String c (Join (t :: t' :: ts) (String sep ""))).
      by rewrite IH.
Qed.

(** X1: splitting loses nothing and leaves no separator behind: no piece
    of [strings.Split(s, sep)] holds the separator byte, there is always at
    least one piece, and the pieces joined by the separator are [s]. *)
Theorem X1_Split_pieces (s : string) (sep : ascii) :
  (forall t, In t (strings.Split s sep) -> ~ In sep (bytes t))
  /\ strings.Split s sep <> []
  /\ Join (strings.Split s sep) (String sep "") = s.
Proof.
  split; [intros t; apply Split_no_sep|]. split; [|apply Join_Split].
  by destruct (Split_nonempty s sep) as (t & ts & ->).
Qed.

Lemma starts_head (s1 : ascii -> bool) (s2 : ascii -> ascii -> bool)
    (s3 : ascii -> ascii -> ascii -> bool) (c : ascii) (l : list ascii) :
  strings.starts s1 s2 s3 (c :: l) = false -> s1 c = false.
Proof.
  destruct l as [|c1 [|c2 l]]; simpl; [done| |].
  - intros H. by apply orb_false_elim in H as [H _].
  - intros H. apply orb_false_elim in H as [H _].
    by apply orb_false_elim in H as [H _].
Qed.

Lemma bytes_TrimSpace (s : string) :
  bytes (strings.TrimSpace s) = strings.trimRight (strings.trimLeft (bytes s)).
Proof. unfold bytes, strings.TrimSpace. apply list_ascii_of_string_of_list_ascii. Qed.

(** X2: [strings.TrimSpace] only cuts at the two ends: the result sits in
    the string as it is, between what was cut off, and neither its first
    nor its last byte is one of the six ASCII white space bytes. *)
Theorem X2_TrimSpace_cuts_ends_only (s : string) :
  (exists p q, bytes s = p ++ bytes (strings.TrimSpace s) ++ q)
  /\ (forall c, head (bytes (strings.TrimSpace s)) = Some c -> strings.space1 c = false)
  /\ (forall c, last (bytes (strings.TrimSpace s)) = Some c -> strings.space1 c = false).
Proof.
  rewrite bytes_TrimSpace.
  set (L := strings.trimLeft (bytes s)).
  destruct (strip_spec strings.space1 strings.space2 strings.space3 (bytes s))
    as [_ [p Hp]]. fold (strings.trimLeft (bytes s)) in Hp. fold L in Hp.
  destruct (strip_spec strings.space1 (fun c1 c0 => strings.space2 c0 c1)
              (fun c2 c1 c0 => strings.space3 c0 c1 c2) (rev L)) as [Hback [q Hq]].
  assert (HL : L = strings.trimRight L ++ rev q).
  { apply (f_equal (@rev ascii)) in Hq.
    by rewrite rev_involutive, rev_app_distr in Hq. }
  split; [|split].
  - exists p, (rev q). by rewrite <- HL.
  - intros c Hc. destruct (strings.trimRight L) as [|c' l] eqn:E; [done|].
    injection Hc as ->.
    pose proof (trimLeft_trimRight_fixed (bytes s)) as Hfix. fold L in Hfix.
    pose proof (strip_spec strings.space1 strings.space2 strings.space3
                  (strings.trimRight L)) as [Hfront _].
    fold (strings.trimLeft (strings.trimRight L)) in Hfront.
    rewrite Hfix, E in Hfront. by apply starts_head in Hfront.
  - intros c Hc. apply last_Some in Hc as [l' Hl'].
    unfold strings.trimRight in Hl'.
    apply (f_equal (@rev ascii)) in Hl'.
    rewrite rev_involutive, rev_app_distr in Hl'. simpl in Hl'.
    rewrite Hl' in Hback. by apply starts_head in Hback.
Qed.

(** X3: a line of white space only, the empty line included, decodes to
    two empty revisions. *)
Theorem X3_decodeRefs_blank (input : string) :
  blank input = true -> decodeRefs input = ("", "").
Proof.
  intros H. apply String_length_0 in H. unfold decodeRefs. by rewrite H.
Qed.

Lemma X3_decodeRefs_blank_witness :
  blank (String (ascii_of_nat 9) "   ") = true
  /\ decodeRefs (String (ascii_of_nat 9) "   ") = ("", "").
Proof.
  assert (H : blank (String (ascii_of_nat 9) "   ") = true)
    by (vm_compute; reflexivity).
  split; [exact H|]. apply (X3_decodeRefs_blank _ H).
Defined.

Lemma nth_Split_no_space (s : string) (n : nat) :
  ~ In " "%char (bytes (nth n (strings.Split s " ") "")).
Proof.
  destruct (nth_in_or_default n (strings.Split s " ") "") as [H| ->].
  - by apply Split_no_sep in H.
  - by intros [].
Qed.

(** X4: whatever the input, the two revisions that [decodeRefs] returns
    hold no space, and the remote revision is either empty or starts with
    the marker [^]. *)
Theorem X4_decodeRefs_no_space (input : string) :
  ~ In " "%char (bytes (decodeRefs input).1)
  /\ ~ In " "%char (bytes (decodeRefs input).2)
  /\ ((decodeRefs input).2 = "" \/ exists t, (decodeRefs input).2 = "^" +:+ t).
Proof.
  unfold decodeRefs. simpl.
  split; [|split].
  - destruct (1 <? _)%nat; [apply nth_Split_no_space | by intros []].
  - destruct (3 <? _)%nat; [|by intros []].
    simpl. intros [H|H]; [done|]. by apply nth_Split_no_space in H.
  - destruct (3 <? _)%nat; [right; by eexists | by left].
Qed.

(** ** Decoding the lines that Git writes *)

Section PlainBytes.
Variable c : ascii.
Hypothesis Hc : ((33 <=? strings.byte c) && (strings.byte c <=? 126))%N = true.

Lemma plain_byte_bounds : (33 <= strings.byte c <= 126)%N.
Proof. apply andb_prop in Hc as [H1 H2]. split; by apply N.leb_le. Qed.

Lemma plain_not_space1 : strings.space1 c = false.
Proof.
  pose proof plain_byte_bounds as [H1 H2]. unfold strings.space1. cbv zeta.
  replace (strings.byte c <=? 13)%N with false by (symmetry; apply N.leb_gt; lia).
  replace (strings.byte c =? 32)%N with false by (symmetry; apply N.eqb_neq; lia).
  by rewrite andb_false_r.
Qed.

Lemma plain_not_space2_first (x : ascii) : strings.space2 c x = false.
Proof.
  pose proof plain_byte_bounds as [H1 H2]. unfold strings.space2.
  by replace (strings.byte c =? 194)%N with false by (symmetry; apply N.eqb_neq; lia).
Qed.

Lemma plain_not_space2_last (x : ascii) : strings.space2 x c = false.
Proof.
  pose proof plain_byte_bounds as [H1 H2]. unfold strings.space2.
  replace (strings.byte c =? 133)%N with false by (symmetry; apply N.eqb_neq; lia).
  replace (strings.byte c =? 160)%N with false by (symmetry; apply N.eqb_neq; lia).
  by rewrite andb_false_r.
Qed.

Lemma plain_not_space3_first (x y : ascii) : strings.space3 c x y = false.
Proof.
  pose proof plain_byte_bounds as [H1 H2]. unfold strings.space3. cbv zeta.
  replace (strings.byte c =? 225)%N with false by (symmetry; apply N.eqb_neq; lia).
  replace (strings.byte c =? 226)%N with false by (symmetry; apply N.eqb_neq; lia).
  by replace (strings.byte c =? 227)%N with false by (symmetry; apply N.eqb_neq; lia).
Qed.

Lemma plain_not_space3_last (x y : ascii) : strings.space3 x y c = false.
Proof.
  pose proof plain_byte_bounds as [H1 H2]. unfold strings.space3. cbv zeta.
  replace (strings.byte c =? 128)%N with false by (symmetry; apply N.eqb_neq; lia).
  replace (128 <=? strings.byte c)%N with false by (symmetry; apply N.leb_gt; lia).
  replace (strings.byte c =? 168)%N with false by (symmetry; apply N.eqb_neq; lia).
  replace (strings.byte c =? 169)%N with false by (symmetry; apply N.eqb_neq; lia).
  replace (strings.byte c =? 175)%N with false by (symmetry; apply N.eqb_neq; lia).
  replace (strings.byte c =? 159)%N with false by (symmetry; apply N.eqb_neq; lia).
  simpl. by rewrite !andb_false_r.
Qed.

Lemma plain_not_at_front (l : list ascii) :
  strings.starts strings.space1 strings.space2 strings.space3 (c :: l) = false.
Proof.
  destruct l as [|c1 [|c2 l]]; simpl;
    by rewrite ?plain_not_space1, ?plain_not_space2_first, ?plain_not_space3_first.
Qed.

Lemma plain_not_at_back (l : list ascii) :
  strings.starts strings.space1 (fun c1 c0 => strings.space2 c0 c1)
    (fun c2 c1 c0 => strings.space3 c0 c1 c2) (c :: l) = false.
Proof.
  destruct l as [|c1 [|c2 l]]; simpl;
    by rewrite ?plain_not_space1, ?plain_not_space2_last, ?plain_not_space3_last.
Qed.
End PlainBytes.

Lemma TrimSpace_fixed (s : string) (c d : ascii) (l l' : list ascii) :
  bytes s = c :: l -> bytes s = l' ++ [d] ->
  ((33 <=? strings.byte c) && (strings.byte c <=? 126))%N = true ->
  ((33 <=? strings.byte d) && (strings.byte d <=? 126))%N = true ->
  strings.TrimSpace s = s.
Proof.
  intros Hfront Hback Hc Hd. unfold strings.TrimSpace. fold (bytes s).
  unfold strings.trimLeft.
  rewrite (strip_fixed _ _ _ (bytes s)) by (rewrite Hfront; by apply plain_not_at_front).
  unfold strings.trimRight.
  rewrite strip_fixed.
  - rewrite rev_involutive. apply string_of_list_ascii_of_string.
  - rewrite Hback, rev_app_distr. simpl. by apply plain_not_at_back.
Qed.

Lemma plain_no_space (s : string) : plain s = true -> ~ In " "%char (bytes s).
Proof.
  unfold plain. rewrite forallb_forall. intros H Hin.
  by specialize (H _ Hin).
Qed.

Lemma Split_append_sep (a r : string) (sep : ascii) :
  ~ In sep (bytes a) ->
  strings.Split (a +:+ String sep r) sep = a :: strings.Split r sep.
Proof.
  induction a as [|c a IH]; intros H; simpl.
  { by rewrite Ascii.eqb_refl. }
  destruct (Ascii.eqb_spec c sep) as [->|Hne].
  { exfalso. apply H. by left. }
  rewrite IH; [done|]. intros Hin. apply H. by right.
Qed.

Lemma Split_single (a : string) (sep : ascii) :
  ~ In sep (bytes a) -> strings.Split a sep = [a].
Proof.
  induction a as [|c a IH]; intros H; simpl; [done|].
  destruct (Ascii.eqb_spec c sep) as [->|Hne].
  { exfalso. apply H. by left. }
  rewrite IH; [done|]. intros Hin. apply H. by right.
Qed.

(** X5: the round trip with Git's line format.  For a local ref, a local
    sha1, a remote ref and a remote sha1 of printable bytes without space,
    the refs' ends not empty, [decodeRefs] gives back the local sha1 and
    the remote sha1 behind the marker [^]. *)
Theorem X5_decodeRefs_hookLine (localRef localSha remoteRef remoteSha : string) :
  plain localRef = true -> plain localSha = true ->
  plain remoteRef = true -> plain remoteSha = true ->
  localRef <> "" -> remoteSha <> "" ->
  decodeRefs (hookLine localRef localSha remoteRef remoteSha)
  = (localSha, "^" +:+ remoteSha).
Proof.
  intros P1 P2 P3 P4 N1 N4.
  set (line := hookLine localRef localSha remoteRef remoteSha).
  assert (Htrim : strings.TrimSpace line = line).
  { destruct localRef as [|c lr]; [done|].
    destruct (bytes remoteSha) as [|x xs] eqn:E using rev_ind.
    { destruct remoteSha; [done | discriminate]. }
    clear IHxs.
    apply (TrimSpace_fixed line c x
             (bytes (lr +:+ " " +:+ localSha +:+ " " +:+ remoteRef +:+ " " +:+ remoteSha))
             (bytes (String c lr +:+ " " +:+ localSha +:+ " " +:+ remoteRef +:+ " ") ++ xs)).
    - done.
    - subst line. unfold hookLine. rewrite <- app_assoc, <- E.
      by rewrite !bytes_append, <- !app_assoc.
    - unfold plain in P1. simpl in P1. by apply andb_prop in P1 as [P1 _].
    - unfold plain in P4. rewrite E, forallb_app in P4.
      apply andb_prop in P4 as [_ P4]. simpl in P4. by rewrite andb_true_r in P4. }
  unfold decodeRefs. rewrite Htrim. subst line. unfold hookLine.
  assert (Hsp : forall x, " " +:+ x = String " " x) by done.
  rewrite !Hsp.
  rewrite !Split_append_sep, Split_single by by apply plain_no_space.
  done.
Qed.

Lemma X5_decodeRefs_hookLine_witness :
  plain "refs/heads/main" = true /\ plain "abc123" = true
  /\ plain "refs/heads/main" = true /\ plain "def456" = true
  /\ "refs/heads/main" <> "" /\ "def456" <> ""
  /\ decodeRefs (hookLine "refs/heads/main" "abc123" "refs/heads/main" "def456")
     = ("abc123", "^" +:+ "def456").
Proof.
  assert (P1 : plain "refs/heads/main" = true) by (vm_compute; reflexivity).
  assert (P2 : plain "abc123" = true) by (vm_compute; reflexivity).
  assert (P4 : plain "def456" = true) by (vm_compute; reflexivity).
  assert (N1 : "refs/heads/main" <> "") by discriminate.
  assert (N4 : "def456" <> "") by discriminate.
  repeat (split; [assumption|]).
  apply (X5_decodeRefs_hookLine _ _ _ _ P1 P2 P1 P4 N1 N4).
Defined.

(** ** The lock index and the conflict evaluation *)

(** X6: the index keeps one lock for each holder's name, the last one in the
    list that the registry answered: a later lock of the same name replaces
    an earlier one without a diagnostic, and a name that no lock carries has
    no entry. *)
Theorem X6_lockSet_last_write_wins (locks : list locking.Lock) (k : string) :
  lockSet locks !! k
  = last (List.filter (fun l => String.eqb (locking.Name l) k) locks).
Proof.
  induction locks as [|l locks IH] using rev_ind.
  { unfold lockSet. simpl. by rewrite lookup_empty. }
  rewrite lockSet_snoc, List.filter_app, lookup_insert. simpl.
  destruct (String.eqb_spec (locking.Name l) k) as [->|Hne].
  - rewrite decide_True by done. by rewrite last_snoc.
  - rewrite decide_False by done. by rewrite app_nil_r.
Qed.

Lemma conflicting_owned (index : gmap string locking.Lock) (name email : string)
    (p : lfs.WrappedPointer) :
  conflicting index name email p = true -> owned index name email p = None.
Proof.
  unfold conflicting, owned. destruct (index !! lfs.Name p) as [l|]; [|done].
  by destruct (String.eqb (locking.Name l) name && String.eqb (locking.Email l) email).
Qed.

(** X8: the conflict evaluation only appends: both lists keep what they
    held, every pointer adds at most one entry to one of them, every added
    conflict is the name of a pointer that has an entry in the index, and
    every added owned path is the path of the lock found for a pointer. *)
Theorem X8_checkLocks_appends (index : gmap string locking.Lock) (name email : string)
    (ps : list lfs.WrappedPointer) (c m : list string) :
  exists dc dm,
    checkLocks index name email ps c m = (c ++ dc, m ++ dm)
    /\ List.length dc + List.length dm <= List.length ps
    /\ (forall f, In f dc ->
          exists p, In p ps /\ lfs.Name p = f /\ is_Some (index !! f))
    /\ (forall f, In f dm ->
          exists p l, In p ps /\ index !! lfs.Name p = Some l /\ locking.Path l = f).
Proof.
  exists (map lfs.Name (List.filter (conflicting index name email) ps)),
         (omap (owned index name email) ps).
  split; [apply checkLocks_spec|]. split; [|split].
  - rewrite length_map. induction ps as [|p ps IH]; [done|]. simpl.
    destruct (conflicting index name email p) eqn:E.
    + rewrite (conflicting_owned _ _ _ _ E). simpl. apply le_n_S, IH.
    + destruct (owned index name email p); simpl.
      * rewrite Nat.add_succ_r. apply le_n_S, IH.
      * apply Nat.le_le_succ_r, IH.
  - intros f Hf. apply in_map_iff in Hf as (p & <- & Hp).
    apply List.filter_In in Hp as [Hp Hc]. exists p. split; [done|]. split; [done|].
    unfold conflicting in Hc. by destruct (index !! lfs.Name p).
  - intros f Hf. apply list_elem_of_In, list_elem_of_omap in Hf as (p & Hp & Ho).
    apply list_elem_of_In in Hp. exists p. unfold owned in Ho.
    destruct (index !! lfs.Name p) as [l|]; [|done]. exists l.
    destruct (_ && _); [|done]. by injection Ho as <-.
Qed.

(** X9: when the committer holds every lock of the registry, under the same
    name and the same email, the conflict evaluation never adds a conflict,
    whatever the push touches. *)
Theorem X9_own_locks_never_conflict (locks : list locking.Lock) (name email : string)
    (ps : list lfs.WrappedPointer) (c m : list string) :
  (forall l, In l locks -> locking.Name l = name /\ locking.Email l = email) ->
  (checkLocks (lockSet locks) name email ps c m).1 = c.
Proof.
  intros Hown. rewrite checkLocks_spec. simpl.
  replace (List.filter (conflicting (lockSet locks) name email) ps) with
    (@nil lfs.WrappedPointer); [by rewrite app_nil_r|].
  symmetry. induction ps as [|p ps IH]; [done|]. simpl. rewrite IH.
  unfold conflicting. destruct (lockSet locks !! lfs.Name p) as [l|] eqn:E; [|done].
  apply lockSet_key in E as [_ Hin]. destruct (Hown l Hin) as [-> ->].
  by rewrite !String.eqb_refl.
Qed.

Lemma X9_own_locks_never_conflict_witness :
  (forall l, In l [Demo.bob_lock] ->
     locking.Name l = "bob" /\ locking.Email l = "bob@example.com")
  /\ (checkLocks (lockSet [Demo.bob_lock]) "bob" "bob@example.com"
        [Demo.bob_file; Demo.big_psd] [] []).1 = [].
Proof.
  assert (H : forall l, In l [Demo.bob_lock] ->
     locking.Name l = "bob" /\ locking.Email l = "bob@example.com").
  { intros l [<-|[]]. split; reflexivity. }
  split; [exact H|].
  apply (X9_own_locks_never_conflict [Demo.bob_lock] "bob" "bob@example.com"
           [Demo.bob_file; Demo.big_psd] [] [] H).
Defined.

(** X10: a pointer whose name has an entry in the index always lands in the
    conflict set when the holder's name or the holder's email differs from
    the committer's: the same name with another email is a conflict. *)
Theorem X10_foreign_lock_conflicts (index : gmap string locking.Lock)
    (name email : string) (ps : list lfs.WrappedPointer) (c m : list string)
    (p : lfs.WrappedPointer) (l : locking.Lock) :
  In p ps ->
  index !! lfs.Name p = Some l ->
  locking.Name l <> name \/ locking.Email l <> email ->
  In (lfs.Name p) (checkLocks index name email ps c m).1.
Proof.
  intros Hp Hl Hdiff. rewrite checkLocks_spec. simpl.
  apply in_or_app. right. apply in_map. apply List.filter_In. split; [done|].
  unfold conflicting. rewrite Hl.
  destruct (String.eqb_spec (locking.Name l) name) as [Hn|Hn]; [|done].
  destruct (String.eqb_spec (locking.Email l) email) as [He|He]; [|done].
  by destruct Hdiff.
Qed.

Lemma X10_foreign_lock_conflicts_witness :
  In Demo.bob_file [Demo.bob_file]
  /\ lockSet [Demo.bob_lock] !! lfs.Name Demo.bob_file = Some Demo.bob_lock
  /\ (locking.Name Demo.bob_lock <> "bob"
      \/ locking.Email Demo.bob_lock <> "bob@work.example")
  /\ In "bob" (checkLocks (lockSet [Demo.bob_lock]) "bob" "bob@work.example"
                 [Demo.bob_file] [] []).1.
Proof.
  assert (H1 : In Demo.bob_file [Demo.bob_file]) by (by left).
  assert (H2 : lockSet [Demo.bob_lock] !! lfs.Name Demo.bob_file = Some Demo.bob_lock)
    by (vm_compute; reflexivity).
  assert (H3 : locking.Name Demo.bob_lock <> "bob"
               \/ locking.Email Demo.bob_lock <> "bob@work.example")
    by (right; discriminate).
  repeat (split; [assumption|]).
  apply (X10_foreign_lock_conflicts (lockSet [Demo.bob_lock]) "bob" "bob@work.example"
           [Demo.bob_file] [] [] Demo.bob_file Demo.bob_lock H1 H2 H3).
Defined.

(** ** The shape of a run *)

Lemma lifecycle_app (t t' : list event) :
  lifecycle (t ++ t') = lifecycle t ++ lifecycle t'.
Proof. apply List.filter_app. Qed.

Lemma lifecycle_lineTrace (text : string) : lifecycle (lineTrace text) = [].
Proof. unfold lineTrace. by destruct (_ =? _)%nat. Qed.

Lemma lifecycle_ownedReport (m : list string) : lifecycle (ownedReport m) = [].
Proof.
  destruct m as [|f m]; [done|]. unfold ownedReport.
  generalize (f :: m). intros l. simpl. by induction l.
Qed.

Lemma lifecycle_conflictReport (rev remote : string) (c : list string) :
  lifecycle (conflictReport rev remote c) = [].
Proof. unfold conflictReport. simpl. by induction c. Qed.

Ltac lifecycle_leaf :=
  unfold prepend; simpl; first [done | by left | by right].

Section Runs.
Context {W : Type} (env : Env W).

Lemma prologue_lifecycle (args : list string) (dry : bool) (w : W) :
  match prologue env args dry w with
  | (t, Done _ _) => lifecycle t = [EvSearchLocks]
  | (t, Exited s) => lifecycle t = [] \/ lifecycle t = [EvSearchLocks]
  end.
Proof.
  unfold prologue. destruct args as [|remote args].
  { rewrite emit_run. lifecycle_leaf. }
  rewrite bind_run. unfold may_exit at 1.
  destruct (requireGitVersion env w) as [w1|s1]; [|lifecycle_leaf].
  rewrite prepend_nil, call_run.
  destruct (ValidateRemote env remote w1) as [[e|] w2]; cbn [fst snd]; rewrite bind_run.
  { unfold Exit at 1. rewrite emit_run. lifecycle_leaf. }
  unfold mret at 1, proc_ret at 1. rewrite prepend_nil, call_run.
  destruct (newUploadContext env remote dry w2) as [ctx w3]; cbn [fst snd].
  rewrite call_run.
  destruct (RemoteForPush env (Remote ctx) w3) as [[e|] w4]; cbn [fst snd];
    rewrite bind_run.
  { unfold ExitWithError at 1. rewrite emit_run. lifecycle_leaf. }
  unfold mret at 1, proc_ret at 1. rewrite prepend_nil, get_run.
  destruct (CurrentCommitter env w4) as [name email].
  rewrite call_run.
  destruct (NewClient env w4) as [[e|] w5]; cbn [fst snd]; rewrite bind_run.
  { unfold Exit at 1. rewrite emit_run. lifecycle_leaf. }
  unfold mret at 1, proc_ret at 1. rewrite prepend_nil, emit_run, call_run.
  destruct (SearchLocks env w5) as [[locks|e] w6]; cbn [fst snd].
  { lifecycle_leaf. }
  unfold Exit. rewrite emit_run. lifecycle_leaf.
Qed.

Lemma readLoop_lifecycle (ctx : uploadContext) (index : gmap string locking.Lock)
    (name email : string) (stdin : list string) (c m : list string) (w : W) :
  lifecycle (readLoop env ctx index name email stdin c m w).1 = [].
Proof.
  revert c m w. induction stdin as [|text rest IH]; intros c m w; [done|].
  destruct (refUpdate text) as [rev|] eqn:E.
  2:{ rewrite (readLoop_skip _ _ _ _ _ _ _ _ _ _ E). unfold prepend. cbn [fst].
      by rewrite lifecycle_app, lifecycle_lineTrace, IH. }
  rewrite (readLoop_eval _ _ _ _ _ _ _ _ _ _ _ E).
  destruct (checkLocks index name email (pointers env w) c m) as [c' m'].
  unfold prepend at 1. cbn [fst]. rewrite lifecycle_app, lifecycle_lineTrace.
  destruct (0 <? List.length c')%nat.
  { cbn [fst]. by rewrite lifecycle_conflictReport. }
  unfold prepend. cbn [fst].
  destruct (uploadLeftOrAll env ctx rev w) as [[e|] w']; [done|].
  simpl. apply IH.
Qed.

(** The four ways a run can go. *)
Lemma run_cases (args : list string) (dry : bool) (stdin : list string) (w : W) :
  let r := prePushCommand env args dry stdin w in
  (exists t0 s,
     prologue env args dry w = (t0, Exited s) /\ r = (t0, Exited s))
  \/ exists t0 ctx name email locks w0,
       prologue env args dry w = (t0, Done (ctx, name, email, locks) w0)
       /\ ((exists t1 s,
              readLoop env ctx (lockSet locks) name email stdin [] [] w0
                = (t1, Exited s)
              /\ r = (t0 ++ t1, Exited s))
           \/ exists t1 c m w1,
                readLoop env ctx (lockSet locks) name email stdin [] [] w0
                  = (t1, Done (c, m) w1)
                /\ ((exists s, Await env ctx w1 = inr s
                       /\ r = (t0 ++ t1 ++ ownedReport m ++ [EvAwait],
                               Exited (Z.pos s)))
                    \/ exists w2, Await env ctx w1 = inl w2
                         /\ r = (t0 ++ t1 ++ ownedReport m
                                    ++ [EvAwait; EvCloseLocks; EvCloseScanner],
                                 Done tt (gitscanner_Close env (lc_Close env w2))))).
Proof.
  intros r. subst r.
  destruct (prologue env args dry w) as [t0 [[[[ctx name] email] locks] w0|s]] eqn:Hpro.
  2:{ left. exists t0, s. by rewrite (prePushCommand_exit _ _ _ _ _ _ _ Hpro). }
  right. exists t0, ctx, name, email, locks, w0. split; [done|].
  rewrite (prePushCommand_run _ _ _ _ _ _ _ _ _ _ _ Hpro).
  destruct (readLoop env ctx (lockSet locks) name email stdin [] [] w0)
    as [t1 [[c m] w1|s]].
  2:{ left. by exists t1, s. }
  right. exists t1, c, m, w1. split; [done|].
  rewrite epilogue_run, !prepend_prepend.
  destruct (Await env ctx w1) as [w2|s]; unfold prepend; simpl.
  - right. exists w2. split; [done|]. by rewrite <- !app_assoc.
  - left. exists s. split; [done|]. by rewrite app_nil_r, <- !app_assoc.
Qed.

Lemma run_calls (args : list string) (dry : bool) (stdin : list string) (w : W) :
  let r := prePushCommand env args dry stdin w in
  (exists n, calls (trace r) = map EvUpload (take n (omap refUpdate stdin))
             /\ (0 < status r)%Z)
  \/ calls (trace r) = map EvUpload (omap refUpdate stdin) ++ [EvAwait].
Proof.
  intros r.
  destruct (run_cases args dry stdin w)
    as [(t0 & s & Hpro & Hr)
       |(t0 & ctx & name & email & locks & w0 & Hpro &
          [(t1 & s & Hloop & Hr)
          |(t1 & c & m & w1 & Hloop & [(s & Hawait & Hr)|(w2 & Hawait & Hr)])])];
    fold r in Hr; rewrite Hr; unfold trace, status; cbn [fst snd];
    pose proof (prologue_spec env args dry w) as Hp0; rewrite Hpro in Hp0.
  - left. exists 0%nat. destruct Hp0 as [-> Hs]. by rewrite take_0.
  - pose proof (readLoop_spec env ctx (lockSet locks) name email stdin [] [] w0) as Hp1.
    rewrite Hloop in Hp1. destruct Hp1 as (Hs & _ & n & Hn).
    left. exists n. by rewrite calls_app, Hp0, Hn.
  - pose proof (readLoop_spec env ctx (lockSet locks) name email stdin [] [] w0) as Hp1.
    rewrite Hloop in Hp1. destruct Hp1 as (Hcalls & _).
    right. by rewrite !calls_app, Hp0, Hcalls, calls_ownedReport.
  - pose proof (readLoop_spec env ctx (lockSet locks) name email stdin [] [] w0) as Hp1.
    rewrite Hloop in Hp1. destruct Hp1 as (Hcalls & _).
    right. by rewrite !calls_app, Hp0, Hcalls, calls_ownedReport.
Qed.
End Runs.

(** X11: in every run the calls to the upload pipeline follow the input:
    the enqueue calls are the local revisions of the first lines that are
    neither blank nor deletions, one call a line and in the order of the
    lines; the drain barrier is called at most once, last, and only after
    every such line has been enqueued; a run that stops before that ends
    with a status above 0. *)
Theorem X11_calls_follow_input {W : Type} (env : Env W) (args : list string)
    (dry : bool) (stdin : list string) (w : W) :
  let r := prePushCommand env args dry stdin w in
  ((exists n, calls (trace r) = map EvUpload (take n (omap refUpdate stdin))
              /\ (0 < status r)%Z)
   \/ calls (trace r) = map EvUpload (omap refUpdate stdin) ++ [EvAwait])
  /\ List.length (calls (trace r)) <= S (List.length stdin).
Proof.
  intros r. pose proof (run_calls env args dry stdin w) as H. fold r in H.
  split; [exact H|].
  assert (Hlen : List.length (omap refUpdate stdin) <= List.length stdin).
  { clear. induction stdin as [|t l IH]; [done|]. simpl.
    destruct (refUpdate t); simpl; [apply le_n_S, IH | apply Nat.le_le_succ_r, IH]. }
  destruct H as [(n & -> & _)| ->].
  - rewrite length_map, length_take. lia.
  - rewrite length_app, length_map. simpl. lia.
Qed.

Lemma refUpdate_Some (text rev : string) :
  refUpdate text = Some rev ->
  rev <> prePushDeleteBranch /\ ~ In " "%char (bytes rev).
Proof.
  unfold refUpdate. destruct (_ =? _)%nat; [done|].
  destruct (String.eqb_spec (decodeRefs (strings.TrimSpace text)).1 prePushDeleteBranch)
    as [|Hne]; [done|].
  intros [= <-]. split; [done|].
  unfold decodeRefs. simpl.
  destruct (1 <? _)%nat; [apply nth_Split_no_space | by intros []].
Qed.

(** X12: no enqueue call of any run is given the deletion sentinel or a
    revision that holds a space: every enqueued revision is the decoded
    local revision of a line of the input. *)
Theorem X12_enqueued_revisions {W : Type} (env : Env W) (args : list string)
    (dry : bool) (stdin : list string) (w : W) (rev : string) :
  In (EvUpload rev) (trace (prePushCommand env args dry stdin w)) ->
  rev <> prePushDeleteBranch
  /\ ~ In " "%char (bytes rev)
  /\ exists text, In text stdin /\ (decodeRefs text).1 = rev.
Proof.
  intros Hin.
  assert (Hc : In (EvUpload rev) (calls (trace (prePushCommand env args dry stdin w)))).
  { apply List.filter_In. by split. }
  assert (Hrefs : In rev (omap refUpdate stdin)).
  { destruct (run_calls env args dry stdin w) as [(n & Hn & _)|Hn]; rewrite Hn in Hc.
    - apply in_map_iff in Hc as (x & [= ->] & Hx).
      rewrite <- (take_drop n (omap refUpdate stdin)). apply in_or_app. by left.
    - apply in_app_or in Hc as [Hc|[Hc|[]]]; [|done].
      by apply in_map_iff in Hc as (x & [= ->] & Hx). }
  apply list_elem_of_In, list_elem_of_omap in Hrefs as (text & Htext & Hrev).
  destruct (refUpdate_Some _ _ Hrev) as [H1 H2]. split; [done|]. split; [done|].
  exists text. split; [by apply list_elem_of_In|].
  rewrite <- decodeRefs_TrimSpace. unfold refUpdate in Hrev.
  destruct (_ =? _)%nat; [done|]. destruct (String.eqb _ _); [done|].
  by injection Hrev.
Qed.

Lemma X12_enqueued_revisions_witness :
  In (EvUpload "abc123")
     (trace (prePushCommand Demo.quiet Demo.args false
               [Demo.deleteLine; Demo.mainLine] 0%nat))
  /\ "abc123" <> prePushDeleteBranch
  /\ ~ In " "%char (bytes "abc123").
Proof.
  assert (H : In (EvUpload "abc123")
     (trace (prePushCommand Demo.quiet Demo.args false
               [Demo.deleteLine; Demo.mainLine] 0%nat))).
  { vm_compute. right. right. right. by left. }
  split; [exact H|].
  destruct (X12_enqueued_revisions Demo.quiet Demo.args false
              [Demo.deleteLine; Demo.mainLine] 0%nat "abc123" H) as (H1 & H2 & _).
  split; [exact H1 | exact H2].
Defined.

(** X13: in every run the lock registry is searched at most once, and the
    two deferred calls run exactly when the command returns, the lock
    client's [Close] before the scanner's: no path that ends the process,
    be it a usage error, a conflict, a scan error or a failed drain, closes
    either of them. *)
Theorem X13_search_once_close_on_return {W : Type} (env : Env W)
    (args : list string) (dry : bool) (stdin : list string) (w : W) :
  match prePushCommand env args dry stdin w with
  | (t, Done _ _) => lifecycle t = [EvSearchLocks; EvCloseLocks; EvCloseScanner]
  | (t, Exited _) => lifecycle t = [] \/ lifecycle t = [EvSearchLocks]
  end.
Proof.
  destruct (run_cases env args dry stdin w)
    as [(t0 & s & Hpro & Hr)
       |(t0 & ctx & name & email & locks & w0 & Hpro &
          [(t1 & s & Hloop & Hr)
          |(t1 & c & m & w1 & Hloop & [(s & Hawait & Hr)|(w2 & Hawait & Hr)])])];
    cbv zeta in Hr; rewrite Hr;
    pose proof (prologue_lifecycle env args dry w) as Hp0; rewrite Hpro in Hp0.
  - exact Hp0.
  - pose proof (readLoop_lifecycle env ctx (lockSet locks) name email stdin [] [] w0) as H1.
    rewrite Hloop in H1. simpl in H1. right. by rewrite lifecycle_app, Hp0, H1.
  - pose proof (readLoop_lifecycle env ctx (lockSet locks) name email stdin [] [] w0) as H1.
    rewrite Hloop in H1. simpl in H1. right.
    by rewrite !lifecycle_app, Hp0, H1, lifecycle_ownedReport.
  - pose proof (readLoop_lifecycle env ctx (lockSet locks) name email stdin [] [] w0) as H1.
    rewrite Hloop in H1. simpl in H1.
    by rewrite !lifecycle_app, Hp0, H1, lifecycle_ownedReport.
Qed.

(** ** Lines that the read loop passes over *)

Lemma blank_skip (text : string) :
  blank text = true -> refUpdate text = None /\ lineTrace text = [].
Proof. unfold blank, refUpdate, lineTrace. by intros ->. Qed.

Section Skipping.
Context {W : Type} (env : Env W).

Lemma readLoop_drop_blank (ctx : uploadContext) (index : gmap string locking.Lock)
    (name email : string) (stdin : list string) (c m : list string) (w : W) :
  readLoop env ctx index name email stdin c m w
  = readLoop env ctx index name email
      (List.filter (fun text => negb (blank text)) stdin) c m w.
Proof.
  revert c m w. induction stdin as [|text rest IH]; intros c m w; [done|].
  cbn [List.filter]. destruct (blank text) eqn:B; cbn [negb].
  { destruct (blank_skip _ B) as [Hr Ht].
    by rewrite (readLoop_skip _ _ _ _ _ _ _ _ _ _ Hr), Ht, prepend_nil. }
  destruct (refUpdate text) as [rev|] eqn:E.
  - rewrite !(readLoop_eval _ _ _ _ _ _ _ _ _ _ _ E).
    destruct (checkLocks index name email (pointers env w) c m) as [c' m'].
    destruct (0 <? List.length c')%nat; [done|].
    destruct (uploadLeftOrAll env ctx rev w) as [[e|] w']; [done|].
    by rewrite IH.
  - by rewrite !(readLoop_skip _ _ _ _ _ _ _ _ _ _ E), IH.
Qed.

Lemma readLoop_drop_skipped (ctx : uploadContext) (index : gmap string locking.Lock)
    (name email : string) (stdin : list string) (c m : list string) (w : W) :
  let a := readLoop env ctx index name email stdin c m w in
  let b := readLoop env ctx index name email
             (List.filter (fun text => bool_decide (is_Some (refUpdate text))) stdin)
             c m w in
  a.2 = b.2 /\ calls a.1 = calls b.1.
Proof.
  revert c m w. induction stdin as [|text rest IH]; intros c m w; [done|].
  cbn [List.filter]. destruct (refUpdate text) as [rev|] eqn:E.
  - rewrite bool_decide_true by by eexists.
    cbv zeta. rewrite !(readLoop_eval _ _ _ _ _ _ _ _ _ _ _ E).
    destruct (checkLocks index name email (pointers env w) c m) as [c' m'].
    destruct (0 <? List.length c')%nat; [done|].
    destruct (uploadLeftOrAll env ctx rev w) as [[e|] w']; [done|].
    destruct (IH c' m' w') as [H2 H1]. unfold prepend. cbn [fst snd].
    split; [done|]. by rewrite !calls_app, H1.
  - rewrite bool_decide_false by (by intros [? ?]).
    cbv zeta. rewrite (readLoop_skip _ _ _ _ _ _ _ _ _ _ E).
    destruct (IH c m w) as [H2 H1]. unfold prepend. cbn [fst snd].
    split; [done|]. by rewrite calls_app, calls_lineTrace.
Qed.
End Skipping.

(** X14: blank lines leave no mark at all: a run on the input and a run on
    the input without its blank lines show the same trace and end the same
    way. *)
Theorem X14_blank_lines_leave_no_mark {W : Type} (env : Env W)
    (args : list string) (dry : bool) (stdin : list string) (w : W) :
  prePushCommand env args dry stdin w
  = prePushCommand env args dry (List.filter (fun text => negb (blank text)) stdin) w.
Proof.
  destruct (prologue env args dry w) as [t0 [[[[ctx name] email] locks] w0|s]] eqn:Hpro.
  - rewrite !(prePushCommand_run _ _ _ _ _ _ _ _ _ _ _ Hpro).
    by rewrite <- readLoop_drop_blank.
  - by rewrite !(prePushCommand_exit _ _ _ _ _ _ _ Hpro).
Qed.

(** X15: the lines that the loop passes over, blank lines and deletions of
    branches, change nothing but the trace output: without them the run
    makes the same calls to the upload pipeline and ends in the same way,
    with the same status and in the same world. *)
Theorem X15_skipped_lines_change_nothing {W : Type} (env : Env W)
    (args : list string) (dry : bool) (stdin : list string) (w : W) :
  let r := prePushCommand env args dry stdin w in
  let r' := prePushCommand env args dry
              (List.filter (fun text => bool_decide (is_Some (refUpdate text))) stdin) w in
  r.2 = r'.2 /\ calls (trace r) = calls (trace r') /\ status r = status r'.
Proof.
  intros r r'.
  assert (H : r.2 = r'.2 /\ calls (trace r) = calls (trace r')).
  { subst r r'.
    destruct (prologue env args dry w) as [t0 [[[[ctx name] email] locks] w0|s]] eqn:Hpro.
    2:{ by rewrite !(prePushCommand_exit _ _ _ _ _ _ _ Hpro). }
    rewrite !(prePushCommand_run _ _ _ _ _ _ _ _ _ _ _ Hpro).
    pose proof (readLoop_drop_skipped env ctx (lockSet locks) name email stdin [] [] w0)
      as [H2 H1]. cbv zeta in H1, H2.
    destruct (readLoop env ctx (lockSet locks) name email stdin [] [] w0) as [ta ra].
    destruct (readLoop env ctx (lockSet locks) name email
                (List.filter _ stdin) [] [] w0) as [tb rb].
    cbn [fst snd] in H1, H2. subst rb.
    destruct ra as [[c m] w1|s]; unfold trace, prepend; cbn [fst snd].
    - split; [done|]. by rewrite !calls_app, H1.
    - split; [done|]. by rewrite !calls_app, H1. }
  destruct H as [H2 H1]. split; [done|]. split; [done|].
  unfold status. by rewrite H2.
Qed.

(** ** The paths that end the hook early *)

(** X16: a scan error is fatal.  When the enqueue call for a line that has
    no conflict reports an error, the loop prints the message with the
    local revision, reports the error and ends the process with the fatal
    status: the lines after it are not read. *)
Theorem X16_scan_error_is_fatal {W : Type} (env : Env W) (ctx : uploadContext)
    (index : gmap string locking.Lock) (name email : string)
    (text : string) (rest : list string) (m : list string) (w w' : W)
    (rev : string) (e : error) :
  refUpdate text = Some rev ->
  List.filter (conflicting index name email) (pointers env w) = [] ->
  uploadLeftOrAll env ctx rev w = (Some e, w') ->
  readLoop env ctx index name email (text :: rest) [] m w
  = (lineTrace text
       ++ [EvUpload rev;
           EvPrint "Error scanning for Git LFS files in %q" [rev];
           EvFatal e],
     Exited (Z.pos (fatal env))).
Proof.
  intros Hrev Hno Hup.
  rewrite (readLoop_eval _ _ _ _ _ _ _ _ _ _ _ Hrev), checkLocks_spec, Hno.
  change (0 <? List.length ([] ++ map lfs.Name []))%nat with false. cbv iota.
  by rewrite Hup.
Qed.

Lemma X16_scan_error_is_fatal_witness :
  refUpdate Demo.mainLine = Some "abc123"
  /\ List.filter (conflicting (lockSet []) "bob" "bob@example.com")
       (pointers Demo.scanFails 0%nat) = []
  /\ uploadLeftOrAll Demo.scanFails {| Remote := "origin" |} "abc123" 0%nat
     = (Some "scan failed", 1%nat)
  /\ readLoop Demo.scanFails {| Remote := "origin" |} (lockSet []) "bob"
       "bob@example.com" [Demo.mainLine; Demo.topicLine] [] [] 0%nat
     = ([EvTrace "pre-push: %s" [Demo.mainLine]; EvUpload "abc123";
         EvPrint "Error scanning for Git LFS files in %q" ["abc123"];
         EvFatal "scan failed"],
        Exited 2).
Proof.
  assert (H1 : refUpdate Demo.mainLine = Some "abc123") by (vm_compute; reflexivity).
  assert (H2 : List.filter (conflicting (lockSet []) "bob" "bob@example.com")
       (pointers Demo.scanFails 0%nat) = []) by (vm_compute; reflexivity).
  assert (H3 : uploadLeftOrAll Demo.scanFails {| Remote := "origin" |} "abc123" 0%nat
     = (Some "scan failed", 1%nat)) by (vm_compute; reflexivity).
  repeat (split; [assumption|]).
  apply (X16_scan_error_is_fatal Demo.scanFails {| Remote := "origin" |} (lockSet [])
           "bob" "bob@example.com" Demo.mainLine [Demo.topicLine] [] 0%nat 1%nat
           "abc123" "scan failed" H1 H2 H3).
Defined.

(** X17: a failed lock search is fatal before any line is read.  When the
    prologue gets as far as [SearchLocks] and the registry answers with an
    error, the hook reports "error finding locks" and ends with the fatal
    status, whatever stdin holds: the error is never taken for an empty
    list of locks, nothing is enqueued and nothing is drained. *)
Theorem X17_lock_search_failure_is_fatal {W : Type} (env : Env W)
    (remote : string) (args : list string) (dry : bool) (stdin : list string)
    (w w1 w2 w3 w4 w5 w6 : W) (ctx : uploadContext) (e : error) :
  requireGitVersion env w = inl w1 ->
  ValidateRemote env remote w1 = (None, w2) ->
  newUploadContext env remote dry w2 = (ctx, w3) ->
  RemoteForPush env (Remote ctx) w3 = (None, w4) ->
  NewClient env w4 = (None, w5) ->
  SearchLocks env w5 = (inr e, w6) ->
  prePushCommand env (remote :: args) dry stdin w
  = ([EvSearchLocks; EvError "error finding locks: %s" [e]],
     Exited (Z.pos (fatal env))).
Proof.
  intros H1 H2 H3 H4 H5 H6. apply prePushCommand_exit.
  unfold prologue. rewrite bind_run. unfold may_exit at 1. rewrite H1.
  rewrite prepend_nil, call_run, H2. cbn [fst snd]. rewrite bind_run.
  unfold mret at 1, proc_ret at 1. rewrite prepend_nil, call_run, H3. cbn [fst snd].
  rewrite call_run, H4. cbn [fst snd]. rewrite bind_run.
  unfold mret at 1, proc_ret at 1. rewrite prepend_nil, get_run.
  destruct (CurrentCommitter env w4) as [name email].
  rewrite call_run, H5. cbn [fst snd]. rewrite bind_run.
  unfold mret at 1, proc_ret at 1. rewrite prepend_nil, emit_run, call_run, H6.
  cbn [fst snd]. unfold Exit. by rewrite emit_run.
Qed.

Lemma X17_lock_search_failure_is_fatal_witness :
  requireGitVersion Faults.registryDown 0%nat = inl 0%nat
  /\ ValidateRemote Faults.registryDown "origin" 0%nat = (None, 0%nat)
  /\ newUploadContext Faults.registryDown "origin" false 0%nat
     = ({| Remote := "origin" |}, 0%nat)
  /\ RemoteForPush Faults.registryDown "origin" 0%nat = (None, 0%nat)
  /\ NewClient Faults.registryDown 0%nat = (None, 0%nat)
  /\ SearchLocks Faults.registryDown 0%nat = (inr "registry unreachable", 0%nat)
  /\ prePushCommand Faults.registryDown ["origin"] false [Demo.mainLine] 0%nat
     = ([EvSearchLocks; EvError "error finding locks: %s" ["registry unreachable"]],
        Exited 2).
Proof.
  repeat (split; [reflexivity|]).
  apply (X17_lock_search_failure_is_fatal Faults.registryDown "origin" [] false
           [Demo.mainLine] 0%nat 0%nat 0%nat 0%nat 0%nat 0%nat 0%nat
           {| Remote := "origin" |} "registry unreachable"
           eq_refl eq_refl eq_refl eq_refl eq_refl eq_refl).
Defined.

(** X18: a remote that [git.ValidateRemote] refuses ends the hook at once:
    the hook reports "Invalid remote name" with the argument and ends with
    the fatal status; no upload context is made, the lock registry is not
    searched and stdin is not read. *)
Theorem X18_invalid_remote_is_fatal {W : Type} (env : Env W)
    (remote : string) (args : list string) (dry : bool) (stdin : list string)
    (w w1 w2 : W) (e : error) :
  requireGitVersion env w = inl w1 ->
  ValidateRemote env remote w1 = (Some e, w2) ->
  prePushCommand env (remote :: args) dry stdin w
  = ([EvError "Invalid remote name %q" [remote]], Exited (Z.pos (fatal env))).
Proof.
  intros H1 H2. apply prePushCommand_exit.
  unfold prologue. rewrite bind_run. unfold may_exit at 1. rewrite H1.
  rewrite prepend_nil, call_run, H2. cbn [fst snd]. rewrite bind_run.
  unfold Exit at 1. by rewrite emit_run.
Qed.

Lemma X18_invalid_remote_is_fatal_witness :
  requireGitVersion Faults.badRemote 0%nat = inl 0%nat
  /\ ValidateRemote Faults.badRemote "nowhere" 0%nat = (Some "no such remote", 0%nat)
  /\ prePushCommand Faults.badRemote ["nowhere"] false [Demo.mainLine] 0%nat
     = ([EvError "Invalid remote name %q" ["nowhere"]], Exited 2).
Proof.
  repeat (split; [reflexivity|]).
  apply (X18_invalid_remote_is_fatal Faults.badRemote "nowhere" [] false
           [Demo.mainLine] 0%nat 0%nat 0%nat "no such remote" eq_refl eq_refl).
Defined.

Lemma exit_zero_only_after_drain_witness :
  status (prePushCommand Demo.quiet Demo.args false
            [Demo.mainLine; Demo.deleteLine; Demo.topicLine] 0%nat) = 0%Z
  /\ calls (trace (prePushCommand Demo.quiet Demo.args false
                     [Demo.mainLine; Demo.deleteLine; Demo.topicLine] 0%nat))
     = map EvUpload (omap refUpdate [Demo.mainLine; Demo.deleteLine; Demo.topicLine])
       ++ [EvAwait].
Proof.
  assert (H : status (prePushCommand Demo.quiet Demo.args false
            [Demo.mainLine; Demo.deleteLine; Demo.topicLine] 0%nat) = 0%Z)
    by (vm_compute; reflexivity).
  split; [exact H|].
  apply (exit_zero_only_after_drain Demo.quiet Demo.args false
           [Demo.mainLine; Demo.deleteLine; Demo.topicLine] 0%nat H).
Defined.

(** X19: without an argument the hook prints how it is meant to be run and
    ends with status 1, before it calls any collaborator: the result does
    not depend on the world or on stdin. *)
Theorem X19_no_argument_is_a_usage_error {W : Type} (env : Env W) (dry : bool)
    (stdin : list string) (w : W) :
  prePushCommand env [] dry stdin w
  = ([EvPrint
        "This should be run through Git's pre-push hook.  Run `git lfs update` to install it."
        []],
     Exited 1).
Proof. apply prePushCommand_exit. unfold prologue. by rewrite emit_run. Qed.

(** ** What the read loop keeps *)

(** X7: the list of the committer's own locks only grows while the loop
    runs: when the loop has run to its end, the list holds what it held
    before, followed by paths of locks of the index. *)
Theorem X7_myLocks_only_grow {W : Type} (env : Env W) (ctx : uploadContext)
    (index : gmap string locking.Lock) (name email : string)
    (stdin : list string) (c m : list string) (w : W)
    (t : list event) (c' m' : list string) (w' : W) :
  readLoop env ctx index name email stdin c m w = (t, Done (c', m') w') ->
  exists dm, m' = m ++ dm
    /\ forall f, In f dm -> exists k l, index !! k = Some l /\ locking.Path l = f.
Proof.
  revert c m w t. induction stdin as [|text rest IH]; intros c m w t.
  { intros [= _ _ <- _]. exists []. split; [by rewrite app_nil_r | by intros ? []]. }
  destruct (refUpdate text) as [rev|] eqn:E.
  2:{ rewrite (readLoop_skip _ _ _ _ _ _ _ _ _ _ E).
      destruct (readLoop env ctx index name email rest c m w) as [t1 r1] eqn:E1.
      unfold prepend. cbn [fst snd]. intros [= _ ->]. by apply (IH _ _ _ _ E1). }
  rewrite (readLoop_eval _ _ _ _ _ _ _ _ _ _ _ E), checkLocks_spec.
  destruct (0 <? _)%nat; [by unfold prepend|].
  destruct (uploadLeftOrAll env ctx rev w) as [[e|] w1]; [by unfold prepend|].
  destruct (readLoop env ctx index name email rest _ _ w1) as [t1 r1] eqn:E1.
  unfold prepend. cbn [fst snd]. intros [= _ ->].
  destruct (IH _ _ _ _ E1) as (dm & -> & Hdm).
  exists (omap (owned index name email) (pointers env w) ++ dm).
  split; [by rewrite app_assoc|].
  intros f Hf. apply in_app_or in Hf as [Hf|Hf]; [|by apply Hdm].
  apply list_elem_of_In, list_elem_of_omap in Hf as (p & _ & Ho).
  unfold owned in Ho. destruct (index !! lfs.Name p) as [l|] eqn:El; [|done].
  exists (lfs.Name p), l. split; [done|].
  destruct (_ && _); [|done]. by injection Ho.
Qed.

Lemma X7_myLocks_only_grow_witness :
  readLoop Demo.mine {| Remote := "origin" |} (lockSet [Demo.bob_lock])
    "bob" "bob@example.com" [Demo.mainLine; Demo.topicLine] [] ["kept.bin"] 0%nat
  = ([EvTrace "pre-push: %s" [Demo.mainLine]; EvUpload "abc123";
      EvTrace "pre-push: %s" [Demo.topicLine]; EvUpload "111aaa"],
     Done ([], ["kept.bin"; "notes/todo.txt"; "notes/todo.txt"]) 2%nat)
  /\ exists dm, ["kept.bin"; "notes/todo.txt"; "notes/todo.txt"] = ["kept.bin"] ++ dm.
Proof.
  assert (H : readLoop Demo.mine {| Remote := "origin" |} (lockSet [Demo.bob_lock])
    "bob" "bob@example.com" [Demo.mainLine; Demo.topicLine] [] ["kept.bin"] 0%nat
  = ([EvTrace "pre-push: %s" [Demo.mainLine]; EvUpload "abc123";
      EvTrace "pre-push: %s" [Demo.topicLine]; EvUpload "111aaa"],
     Done ([], ["kept.bin"; "notes/todo.txt"; "notes/todo.txt"]) 2%nat))
    by (vm_compute; reflexivity).
  split; [exact H|].
  destruct (X7_myLocks_only_grow _ _ _ _ _ _ _ _ _ _ _ _ _ H) as (dm & Hdm & _).
  by exists dm.
Defined.

(** X20: the read loop, started with an empty conflict set, runs to its end
    exactly when, on every line that it evaluates, no pointer is found
    locked by someone else and the enqueue call reports no error; it then
    ends with the conflict set still empty. *)
Theorem X20_loop_ends_iff_all_pass {W : Type} (env : Env W) (ctx : uploadContext)
    (index : gmap string locking.Lock) (name email : string)
    (stdin : list string) (m : list string) (w : W) :
  passes env ctx index name email stdin w = true
  <-> exists t m' w',
        readLoop env ctx index name email stdin [] m w = (t, Done ([], m') w').
Proof.
  pose proof (readLoop_spec env ctx index name email stdin [] m w) as H.
  destruct (readLoop env ctx index name email stdin [] m w) as [t [[c' m'] w'|s]].
  - destruct H as (_ & -> & Hp). split; [by eauto | intros _; by apply Hp].
  - destruct H as (_ & Hp & _). rewrite Hp by done.
    split; [done | by intros (? & ? & ? & ?)].
Qed.
